(** * The double-slit particle accumulation of [website.py]

    A shallow embedding of [show_doubleslit] and of its per-frame callback
    [animate]: the rejection sampler, the growing list [landed_y], the flight
    dot and the max-normalised histogram.  The frame callbacks of the other
    experiments and the sidebar routing follow, each in a module of its own.

    Python floats are idealised as real numbers ([R]); Python integers are
    [Z] (frame indices) and [nat] (lengths and bin counts).  What is stated
    of the animations is stated with the code's own expressions or with
    bounds that leave room for rounding; an identity that is exact only
    over [R], such as the zero of the pattern at -1, serves only to bound
    a value.  The functions of
    numpy that the code calls are modelled from numpy's documentation in
    module [np]; the global generator behind [np.random] is an abstract
    interface, [RandomState], threaded through the code as explicit state. *)

From Stdlib Require Import Reals Lra Lia ZArith List Bool Arith ZifyNat.
From Stdlib Require String.
Import String.StringSyntax.
Import ListNotations.

Local Open Scope R_scope.

(** * Definitions *)

(** ** Outcomes of Python code

    A call returns ([Done]), raises ([Raise]) or is still inside
    [while True] when the fuel of the model runs out ([OutOfFuel]). *)

Inductive exn : Set := ValueError.

Inductive outcome (A : Type) : Type :=
| Done (a : A)
| Raise (e : exn)
| OutOfFuel.

Arguments Done {A} a.
Arguments Raise {A} e.
Arguments OutOfFuel {A}.

Definition bind {A B : Type} (c : outcome A) (k : A -> outcome B) : outcome B :=
  match c with
  | Done a => k a
  | Raise e => Raise e
  | OutOfFuel => OutOfFuel
  end.

Notation "x <- c ;; k" := (bind c (fun x => k))
  (at level 61, c at next level, right associativity).
Notation "' pat <- c ;; k" := (bind c (fun x => match x with pat => k end))
  (at level 61, pat pattern, c at next level, right associativity).

(** ** Comparisons of floats as booleans *)

Definition Rltb (x y : R) : bool := if Rlt_dec x y then true else false.
Definition Rleb (x y : R) : bool := if Rle_dec x y then true else false.

(** ** The numpy functions used by the code *)

Module np.

(** [np.sinc(x)]: sin(pi x)/(pi x), and 1 at 0. *)
Definition sinc (x : R) : R :=
  if Req_dec_T x 0 then 1 else sin (PI * x) / (PI * x).

(** [np.linspace(start, stop, num)]: [num] evenly spaced samples over
    the closed interval; a single sample is [start]. *)
Definition linspace (start stop : R) (num : nat) : list R :=
  map (fun i => start + INR i * ((stop - start) / INR (num - 1))) (seq 0 num).

(** [np.zeros(n)]. *)
Definition zeros (n : nat) : list R := repeat 0 n.

(** The check of [np.histogram] on an array of edges:
    [np.any(bin_edges[:-1] > bin_edges[1:])] must be false. *)
Fixpoint monotonic (edges : list R) : bool :=
  match edges with
  | a :: (b :: _) as rest => if Rlt_dec b a then false else monotonic rest
  | _ => true
  end.

(** Membership in one bin: half-open, except the last bin, which is
    closed on the right. *)
Definition in_bin (lo hi : R) (last : bool) (x : R) : bool :=
  Rleb lo x && (if last then Rleb x hi else Rltb x hi).

Definition count (p : R -> bool) (a : list R) : nat := length (filter p a).

Fixpoint bin_counts (a : list R) (edges : list R) : list nat :=
  match edges with
  | lo :: (hi :: more) as rest =>
      count (in_bin lo hi (match more with [] => true | _ => false end)) a
      :: bin_counts a rest
  | _ => []
  end.

(** [np.histogram(a, bins=edges)], first component. *)
Definition histogram (a : list R) (edges : list R) : outcome (list nat) :=
  if monotonic edges then Done (bin_counts a edges) else Raise ValueError.

End np.

(** Python's [max] on a sequence of counts: raises on the empty one. *)
Definition py_max (l : list nat) : outcome nat :=
  match l with
  | [] => Raise ValueError
  | c :: cs => Done (fold_left Nat.max cs c)
  end.

(** ** The random generator

    [random_sample] is the generator's primitive draw from [0, 1);
    [normal loc scale size] draws [size] Gaussian variates. *)

Class RandomState (G : Type) : Type := {
  random_sample : G -> R * G;
  normal : R -> R -> nat -> G -> list R * G;
  random_sample_unit : forall g, 0 <= fst (random_sample g) < 1;
  normal_size : forall loc scale size g,
      length (fst (normal loc scale size g)) = size
}.

(** ** The pure parts of [show_doubleslit] *)

(** The intensity [prob] of line 291 (the theory curve [I] of line 277),
    as a function of the position. *)
Definition prob (y : R) : R :=
  (cos (10 * y)) ^ 2 * (np.sinc (2 * y)) ^ 2.

(** The test of line 292 on a candidate and a threshold. *)
Definition accepted (r_y u : R) : bool := Rltb u (prob r_y).

(** [for bar, h in zip(bars, hist): bar.set_width(h)]. *)
Fixpoint set_widths (bars hist : list R) : list R :=
  match bars, hist with
  | _ :: bs, h :: hs => h :: set_widths bs hs
  | _, _ => bars
  end.

(** [hist / max(hist) if max(hist) > 0 else hist]. *)
Definition normalize (hist : list nat) : outcome (list R) :=
  m <- py_max hist ;;
  Done (if (0 <? m)%nat then map (fun c => INR c / INR m) hist
        else map INR hist).

(** Where the dot is drawn (lines 297-302). *)
Definition flight (frame : Z) (target : R) : R * R :=
  let sub := (frame mod 5)%Z in
  let prog := IZR sub / 5 in
  (-1.5 + 4 * prog, target * prog).

(** The dot that a frame leaves, given the landed positions after its
    sampling step (lines 300-302). *)
Definition dot_after (frame : Z) (landed : list R) (old : option (R * R))
  : option (R * R) :=
  match landed with
  | [] => old
  | _ => Some (flight frame (last landed 0))
  end.

(** ** The stateful parts *)

Section DoubleSlit.

Context {G : Type} `{RandomState G}.

(** [np.random.uniform(low, high)]: [low + (high - low) * random_sample()]. *)
Definition uniform (low high : R) (g : G) : R * G :=
  let (x, g') := random_sample g in (low + (high - low) * x, g').

(** [np.random.random()]. *)
Definition random (g : G) : R * G := random_sample g.

(** What [animate] closes over: the bin edges, the bar widths, the landed
    positions, the data of the two line artists, and the generator. *)
Record Scene : Type := mkScene {
  bins : list R;
  bars : list R;
  landed_y : list R;
  dot : option (R * R);
  impacts : list R * list R;
  rng : G
}.

(** The set-up code of lines 263-283: the 30 edges and the 29 bars of
    lines 280-281, no landed position, the dot and the impacts without
    data.  The function takes no argument. *)
Definition show_doubleslit (g : G) : outcome Scene :=
  let bins := np.linspace (-1) 1 30 in
  Done (mkScene bins (np.zeros 29) [] None ([], []) g).

(** One pass through the body of [while True] (lines 290-292): the
    candidate, the threshold and the generator afterwards. *)
Definition propose (g : G) : R * R * G :=
  let (r_y, g1) := uniform (-1) 1 g in
  let (u, g2) := random g1 in
  (r_y, u, g2).

(** The loop of lines 289-294; [fuel] bounds the passes the model follows. *)
Fixpoint rejection_loop (fuel : nat) (g : G) : outcome (R * G) :=
  match fuel with
  | O => OutOfFuel
  | S fuel' =>
      let '(r_y, u, g') := propose g in
      if accepted r_y u then Done (r_y, g') else rejection_loop fuel' g'
  end.

(** Lines 287-294: on every fifth frame a new target is sampled and
    appended to [landed_y]. *)
Definition determine_target (fuel : nat) (frame : Z) (s : Scene)
  : outcome (list R * G) :=
  if (frame mod 5 =? 0)%Z then
    '(r_y, g') <- rejection_loop fuel (rng s) ;;
    Done (landed_y s ++ [r_y], g')
  else Done (landed_y s, rng s).

(** The frame callback, lines 285-314. *)
Definition animate (fuel : nat) (frame : Z) (s : Scene) : outcome Scene :=
  '(landed, g1) <- determine_target fuel frame s ;;
  let dot' := dot_after frame landed (dot s) in
  let (xs, g2) := normal 0 0.1 (length landed) g1 in
  hist <- np.histogram landed (bins s) ;;
  if (0 <? length landed)%nat then
    h <- normalize hist ;;
    Done (mkScene (bins s) (set_widths (bars s) h) landed dot' (xs, landed) g2)
  else
    Done (mkScene (bins s) (bars s) landed dot' (xs, landed) g2).

(** The driver: frames [0 .. n-1] in order, on the scene so far. *)
Fixpoint frames (fuel : nat) (n : nat) (s : Scene) : outcome Scene :=
  match n with
  | O => Done s
  | S k => s' <- frames fuel k s ;; animate fuel (Z.of_nat k) s'
  end.

(** A run of [n] frames on the scene that the set-up code built. *)
Definition run (fuel : nat) (n : nat) (g : G) : outcome Scene :=
  s <- show_doubleslit g ;; frames fuel n s.

(** The scenes of an animation: built by [show_doubleslit] and then
    updated by any calls of [animate]. *)
Inductive reachable : Scene -> Prop :=
| reach_setup g s :
    show_doubleslit g = Done s -> reachable s
| reach_animate fuel frame s s' :
    reachable s -> animate fuel frame s = Done s' -> reachable s'.

(** The generator after [n] passes through the loop body. *)
Fixpoint passes (n : nat) (g : G) : G :=
  match n with
  | O => g
  | S k => passes k (snd (propose g))
  end.

(** The candidate and the threshold of pass [n] (counted from 0). *)
Definition candidate (n : nat) (g : G) : R :=
  fst (fst (propose (passes n g))).
Definition threshold (n : nat) (g : G) : R :=
  snd (fst (propose (passes n g))).

End DoubleSlit.

Arguments Scene G : clear implicits.

(** ** Vocabulary of the statements *)

(** Linear interpolation between two points of the top-down view. *)
Definition lerp (p q : R * R) (t : R) : R * R :=
  (fst p + t * (fst q - fst p), snd p + t * (snd q - snd p)).

(** The dot starts at the source, left of the slits, and the detector
    screen is the line [x = 2.5] (line 262). *)
Definition flight_start : R * R := (-1.5, 0).
Definition landing_point (target : R) : R * R := (2.5, target).

(** The edges of line 280. *)
Definition edges : list R := np.linspace (-1) 1 30.

Definition in_domain (y : R) : Prop := -1 <= y <= 1.

(** The scene that [show_doubleslit] hands to the driver. *)
Definition fresh {G : Type} (g : G) : Scene G :=
  mkScene edges (np.zeros 29) [] None ([], []) g.

(** What the bars show for a given list of landed positions: nothing before
    the first landing, then the counts divided by their positive maximum. *)
Definition bars_of (landed bs : list R) : Prop :=
  match landed with
  | [] => bs = np.zeros 29
  | _ =>
      exists m, py_max (np.bin_counts landed edges) = Done m /\
                (1 <= m)%nat /\
                bs = map (fun c => INR c / INR m) (np.bin_counts landed edges)
  end.

(** The invariant of the scenes of an animation. *)
Record scene_inv {G : Type} (s : Scene G) : Prop := {
  inv_bins : bins s = edges;
  inv_landed : Forall in_domain (landed_y s);
  inv_bars : bars_of (landed_y s) (bars s);
  inv_dot : landed_y s = [] -> dot s = None
}.

(** ** A generator that replays a tape

    The tape is read cyclically; the entry [k] stands for the draw
    [k / (k + 1)] of [0, 1): [0] is the draw 0 and [1] the draw 1/2. *)

Definition tape_value (k : nat) : R := INR k / INR (S k).

Definition tape_next (t : list nat) : R * list nat :=
  match t with
  | [] => (0, [])
  | k :: t' => (tape_value k, t' ++ [k])
  end.

Fixpoint tape_normal (loc scale : R) (size : nat) (t : list nat)
  : list R * list nat :=
  match size with
  | O => ([], t)
  | S n =>
      let (x, t1) := tape_next t in
      let (xs, t2) := tape_normal loc scale n t1 in
      (loc + scale * (2 * x - 1) :: xs, t2)
  end.

#[export, refine] Instance TapeRandom : RandomState (list nat) := {|
  random_sample := tape_next;
  normal := tape_normal
|}.
Proof.
  - intros [| k t]; cbn [tape_next fst]; [lra |].
    unfold tape_value. rewrite S_INR. pose proof (pos_INR k) as Hk.
    assert (Hpos : 0 < INR k + 1) by lra.
    assert (Hinv : 0 < / (INR k + 1)) by now apply Rinv_0_lt_compat.
    unfold Rdiv. split; [nra |].
    apply Rmult_lt_reg_r with (INR k + 1); [assumption |].
    rewrite Rmult_assoc, Rinv_l by lra. lra.
  - intros loc scale size. induction size as [| n IH]; intros t; [reflexivity |].
    cbn [tape_normal]. destruct (tape_next t) as [x t1].
    specialize (IH t1). destruct (tape_normal loc scale n t1) as [xs t2].
    cbn [fst length] in *. now rewrite IH.
Defined.

(** The retry cap that the specification suggests; the code has none. *)
Definition suggested_retry_cap : nat := 100 * 100.

(** [n] times the pair of draws 0 and 1/2: the candidate [-1] against
    the threshold 1/2. *)
Fixpoint rejected_pairs (n : nat) : list nat :=
  match n with
  | O => []
  | S k => 0%nat :: 1%nat :: rejected_pairs k
  end.

(** More rejected pairs than the suggested cap, then the centre. *)
Definition stubborn_tape : list nat :=
  rejected_pairs (S suggested_retry_cap) ++ [1%nat; 0%nat].

(** ** The other experiments

    Each [show_*] function sets up its artists and hands a frame callback
    [animate] to the driver.  A callback is modelled on the data of the
    artists it touches; where it overwrites all of them on every frame, as
    a function of the frame alone. *)

Delimit Scope string_scope with string.

(** The two coordinate sequences that [set_data] receives. *)
Definition line_data : Type := (list R * list R)%type.

(** *** Gravitational lensing (lines 54-120) *)

Module lensing.

(** [get_path(t, sign)], lines 88-91, on an array [t]. *)
Definition get_path (t : list R) (sign : R) : line_data :=
  (map (fun t => 8 * (1 - 2 * t)) t,
   map (fun t => sign * 2.5 * sin (t * PI)) t).

Record Scene : Type := mkScene {
  beam_top : line_data;
  beam_bottom : line_data;
  app_top : line_data;
  app_bot : line_data;
  app_top_alpha : R;
  app_bot_alpha : R;
  img_top : R * R;
  img_bot : R * R;
  img_top_alpha : R;
  img_bot_alpha : R;
  txt : String.string
}.

(** The artists as lines 77-86 create them. *)
Definition fresh : Scene :=
  mkScene ([], []) ([], []) ([], []) ([], []) 0 0 (-8, 0) (-8, 0) 0 0
          String.EmptyString.

(** [animate(frame)], lines 93-117.  [np.linspace] refuses a negative
    number of samples. *)
Definition animate (frame : Z) (s : Scene) : outcome Scene :=
  if (frame <=? 50)%Z then
    let t := IZR frame / 50 in
    if (frame + 1 <? 0)%Z then Raise ValueError
    else
      let tp := np.linspace 0 t (Z.to_nat (frame + 1)) in
      Done (mkScene (get_path tp 1) (get_path tp (-1))
              (app_top s) (app_bot s) (app_top_alpha s) (app_bot_alpha s)
              (img_top s) (img_bot s) (img_top_alpha s) (img_bot_alpha s)
              (txt s))
  else
    let prog := Rmin 1 (IZR (frame - 50) / 30) in
    let dash_x := np.linspace (-8) (-8 + 16 * prog) 10 in
    let dash_y_top := np.linspace 0 (5 * prog) 10 in
    let dash_y_bot := np.linspace 0 (-5 * prog) 10 in
    if Rltb 0.1 prog then
      Done (mkScene (beam_top s) (beam_bottom s)
              (dash_x, dash_y_top) (dash_x, dash_y_bot) 0.5 0.5
              (-8 + 16 * prog, 5 * prog) (-8 + 16 * prog, -5 * prog) 1 1
              "Apparent Position
(Einstein Ring)"%string)
    else
      Done (mkScene (beam_top s) (beam_bottom s)
              (dash_x, dash_y_top) (dash_x, dash_y_bot) 0.5 0.5
              (img_top s) (img_bot s) (img_top_alpha s) (img_bot_alpha s)
              (txt s)).

(** The frames [0 .. n-1] in order. *)
Fixpoint frames (n : nat) (s : Scene) : outcome Scene :=
  match n with
  | O => Done s
  | S k => s' <- frames k s ;; animate (Z.of_nat k) s'
  end.

End lensing.

(** *** Michelson interferometer (lines 125-172) *)

Module interferometer.

Definition x : list R := np.linspace (-10) 10 100.

(** [R = np.sqrt(X**2 + Y**2)] for [X, Y = np.meshgrid(x, x)]: row [i],
    column [j] holds the distance of [(x[j], x[i])] from the centre. *)
Definition Rgrid : list (list R) :=
  map (fun yi => map (fun xj => sqrt (xj ^ 2 + yi ^ 2)) x) x.

Record Scene : Type := mkScene {
  mirror_move : R;
  beams : list line_data;
  img : list (list R)
}.

(** The moving mirror at [x = 4.8], six empty beams and
    [np.zeros_like(R)]. *)
Definition fresh : Scene :=
  mkScene 4.8 (repeat ([], []) 6) (map (map (fun _ => 0)) Rgrid).

(** The mirror position of line 154. *)
Definition mx (frame : Z) : R := 4.8 + 0.8 * sin (IZR frame * 0.1).

(** One pixel of [Z], line 167, from its distance [r] to the centre. *)
Definition fringe (delta_L r : R) : R :=
  (cos (0.5 * r ^ 2 + 2 * PI * delta_L)) ^ 2.

(** [animate(frame)], lines 152-169: every artist is overwritten. *)
Definition animate (frame : Z) : Scene :=
  let mx := mx frame in
  let delta_L := 2 * (mx - 4.8) in
  mkScene mx
    [ ([-5; 0], [0; 0]);
      ([0; 0], [0; 4.8]);
      ([0; mx], [0; 0]);
      ([0; 0], [4.8; 0]);
      ([mx; 0], [0; 0]);
      ([0; 0], [0; -5]) ]
    (map (map (fringe delta_L)) Rgrid).

End interferometer.

(** *** Coupled pendulums (lines 177-243) *)

Module pendulum.

Definition t : list R := np.linspace 0 20 200.
Definition w1 : R := 3.0.
Definition w2 : R := 3.5.

(** [a[i]] on a numpy array: a negative index counts from the end, an
    index out of range raises ([None]). *)
Definition item (a : list R) (i : Z) : option R :=
  let n := Z.of_nat (length a) in
  if ((0 <=? i) && (i <? n))%Z then nth_error a (Z.to_nat i)
  else if ((- n <=? i) && (i <? 0))%Z then nth_error a (Z.to_nat (n + i))
  else None.

(** The six angles of lines 210-224, as [all_coords]. *)
Definition all_coords (ti : R) : list (R * R) :=
  let th1 := 0.2 * cos (w1 * ti) in
  let th2 := 0.2 * cos (w1 * ti) in
  let th3 := 0.2 * cos (w2 * ti) in
  let th4 := -0.2 * cos (w2 * ti) in
  let th5 := 0.1 * cos (w1 * ti) + 0.1 * cos (w2 * ti) in
  let th6 := 0.1 * cos (w1 * ti) - 0.1 * cos (w2 * ti) in
  [(th1, th2); (th3, th4); (th5, th6)].

(** The artists of one of the three axes. *)
Record Panel : Type := mkPanel {
  rod1 : line_data;
  rod2 : line_data;
  bob1 : R * R;
  bob2 : R * R;
  spring : line_data
}.

(** The body of the loop of lines 227-236 for the angles [a] and [b]. *)
Definition place (a b : R) : Panel :=
  let x1 := -0.4 + sin a in
  let y1 := - cos a in
  let x2 := 0.4 + sin b in
  let y2 := - cos b in
  mkPanel ([-0.4; x1], [0; y1]) ([0.4; x2], [0; y2])
          (x1, y1) (x2, y2) ([x1; x2], [y1; y2]).

(** [animate(i)], lines 208-240: the three panels, in order. *)
Definition animate (i : Z) : option (list Panel) :=
  match item t i with
  | Some ti => Some (map (fun ab => place (fst ab) (snd ab)) (all_coords ti))
  | None => None
  end.

End pendulum.

(** *** Casimir effect (lines 322-357) *)

Module casimir.

(** The plate position [d] of line 342. *)
Definition d (frame : Z) : R := 2.0 * (1 - IZR frame / 100) + 0.5.

Record Scene : Type := mkScene {
  plate_R : R;
  arr_L : (R * R) * (R * R);
  arr_R : (R * R) * (R * R);
  lines_in : list line_data
}.

(** The wave of line 351 for the mode [i] (counted from 0). *)
Definition wave (frame : Z) (i : nat) (x_in : list R) : list R :=
  map (fun x => 0.5 * sin (INR (i + 1) * PI * (x + 2) / (d frame + 2))
               * cos (IZR frame * 0.2)) x_in.

(** [animate(frame)], lines 341-354: every artist is overwritten. *)
Definition animate (frame : Z) : Scene :=
  let d := d frame in
  let x_in := np.linspace (-2) d 50 in
  mkScene d
    ((-2 - d * 0.5, 0), (-2.1, 0))
    ((d + 0.2 + d * 0.5, 0), (d + 0.2, 0))
    (map (fun i => (x_in, wave frame i x_in)) (seq 0 5)).

End casimir.

(** *** Hawking radiation (lines 362-395) *)

Module hawking.

(** The two markers and the alpha each one was last given ([None]: never
    set). *)
Record Scene : Type := mkScene {
  p1 : line_data;
  p2 : line_data;
  p1_alpha : option R;
  p2_alpha : option R
}.

Definition fresh : Scene := mkScene ([], []) ([], []) None None.

(** [animate(frame)], lines 378-392. *)
Definition animate (frame : Z) (s : Scene) : Scene :=
  let cycle := (frame mod 40)%Z in
  if (cycle <? 10)%Z then
    mkScene ([1.1], [0]) ([0.9], [0])
            (Some (IZR cycle / 10)) (Some (IZR cycle / 10))
  else
    let t := IZR (cycle - 10) / 30 in
    mkScene ([1.1 + t * 1.5], [t * 0.5]) ([0.9 - t * 0.9], [0])
            (p1_alpha s) (Some (1 - t)).

(** The frames [0 .. n-1] in order. *)
Fixpoint frames (n : nat) (s : Scene) : Scene :=
  match n with
  | O => s
  | S k => animate (Z.of_nat k) (frames k s)
  end.

End hawking.

(** *** Vacuum decay (lines 400-439) *)

Module vacuum.

Inductive color : Set := cyan | yellow | magenta.

(** The potential curve of line 410. *)
Definition y (x : R) : R := 0.5 * x ^ 4 - 2.66 * x ^ 3 + 4 * x ^ 2.

Record Scene : Type := mkScene {
  ball : line_data;
  ball_color : color;
  bubble : R
}.

(** The cyan ball without data and the bubble of radius 0. *)
Definition fresh : Scene := mkScene ([], []) cyan 0.

(** [animate(frame)], lines 420-436. *)
Definition animate (frame : Z) (s : Scene) : Scene :=
  let s1 :=
    if (frame <? 30)%Z then mkScene ([0], [0]) (ball_color s) (bubble s)
    else if (frame <? 50)%Z then
      mkScene ([2.5 * IZR (frame - 30) / 20], [1.5]) yellow (bubble s)
    else mkScene ([2.7], [-1]) magenta (bubble s) in
  if (50 <? frame)%Z then
    let r := IZR (frame - 50) * 0.3 in
    mkScene (ball s1) (ball_color s1) r
  else s1.

(** The frames [0 .. n-1] in order. *)
Fixpoint frames (n : nat) (s : Scene) : Scene :=
  match n with
  | O => s
  | S k => animate (Z.of_nat k) (frames k s)
  end.

End vacuum.

(** *** Navigation (lines 446-474) *)

Module navigation.

Inductive page : Set :=
| show_home | show_lensing | show_interferometer | show_pendulum
| show_doubleslit | show_casimir | show_hawking | show_vacuum.

(** The options of the sidebar radio, lines 447-456. *)
Definition options : list String.string :=
  [ "Home"; "Gravitational Lensing"; "Michelson Interferometer";
    "Coupled Pendulums"; "Double Slit (Electrons)"; "Casimir Effect";
    "Hawking Radiation"; "Vacuum Decay" ]%string.

(** The routing chain of lines 459-474: the page that is shown, if any. *)
Definition route (selection : String.string) : option page :=
  (if String.eqb selection "Home" then Some show_home
   else if String.eqb selection "Gravitational Lensing" then Some show_lensing
   else if String.eqb selection "Michelson Interferometer"
        then Some show_interferometer
   else if String.eqb selection "Coupled Pendulums" then Some show_pendulum
   else if String.eqb selection "Double Slit (Electrons)"
        then Some show_doubleslit
   else if String.eqb selection "Casimir Effect" then Some show_casimir
   else if String.eqb selection "Hawking Radiation" then Some show_hawking
   else if String.eqb selection "Vacuum Decay" then Some show_vacuum
   else None)%string.

End navigation.

(** Linear arithmetic with division and remainder by a constant. *)
Ltac div_lia := zify; Z.to_euclidean_division_equations; lia.

(** * Facts about the numeric functions *)

Lemma Rltb_true x y : Rltb x y = true <-> x < y.
Proof. unfold Rltb; destruct (Rlt_dec x y); split; auto; discriminate. Qed.

Lemma Rltb_false x y : Rltb x y = false <-> y <= x.
Proof.
  unfold Rltb; destruct (Rlt_dec x y); split; auto; try discriminate; lra.
Qed.

Lemma Rleb_true x y : Rleb x y = true <-> x <= y.
Proof. unfold Rleb; destruct (Rle_dec x y); split; auto; discriminate. Qed.


Lemma PI_gt_3 : 3 < PI.
Proof. pose proof PI2_3_2; lra. Qed.

Lemma sin_between (t : R) : 0 <= t -> - t <= sin t <= t.
Proof.
  intros [Hpos | <-]; [| rewrite sin_0; lra].
  split; [| left; now apply sin_lt_x].
  destruct (Rle_dec t 1) as [Hle | Hgt].
  - pose proof PI_gt_3.
    assert (0 <= sin t) by (apply sin_ge_0; lra). lra.
  - pose proof (SIN_bound t). lra.
Qed.

Lemma sin_sqr_le (t : R) : (sin t) ^ 2 <= t ^ 2.
Proof.
  destruct (Rle_dec 0 t) as [Hpos | Hneg].
  - pose proof (sin_between t Hpos). nra.
  - assert (Hpos : 0 <= - t) by lra.
    pose proof (sin_between (- t) Hpos) as Hb.
    rewrite sin_neg in Hb. nra.
Qed.

Lemma sinc_0 : np.sinc 0 = 1.
Proof. unfold np.sinc. destruct (Req_dec_T 0 0); [reflexivity | lra]. Qed.

Lemma sinc_nonzero x : x <> 0 -> np.sinc x = sin (PI * x) / (PI * x).
Proof. intros Hx. unfold np.sinc. destruct (Req_dec_T x 0); [contradiction | reflexivity]. Qed.

Lemma sinc_sqr_bounds (x : R) : 0 <= (np.sinc x) ^ 2 <= 1.
Proof.
  split; [apply pow2_ge_0 |].
  unfold np.sinc. destruct (Req_dec_T x 0) as [-> | Hx]; [lra |].
  pose proof PI_RGT_0.
  assert (Ht : PI * x <> 0) by nra.
  set (t := PI * x) in *.
  pose proof (sin_sqr_le t) as Hs.
  assert (Ht2 : 0 < t ^ 2) by nra.
  replace ((sin t / t) ^ 2) with ((sin t) ^ 2 / t ^ 2) by (field; assumption).
  apply Rmult_le_reg_r with (t ^ 2); [assumption |].
  replace ((sin t) ^ 2 / t ^ 2 * t ^ 2) with ((sin t) ^ 2) by (field; nra).
  lra.
Qed.

Lemma cos_sqr_bounds (x : R) : 0 <= (cos x) ^ 2 <= 1.
Proof. pose proof (COS_bound x). nra. Qed.

Lemma intensity_0 : prob 0 = 1.
Proof.
  unfold prob. rewrite !Rmult_0_r, cos_0, sinc_0. lra.
Qed.

Lemma intensity_minus_1 : prob (-1) = 0.
Proof.
  unfold prob. rewrite sinc_nonzero by lra.
  replace (PI * (2 * -1)) with (- (2 * PI)) by ring.
  rewrite sin_neg, sin_2PI.
  pose proof PI_RGT_0.
  replace (- 0 / - (2 * PI)) with 0 by (field; lra).
  ring.
Qed.

(** C2. For every real position [y], the intensity
    [cos(10 y)^2 * sinc(2 y)^2], with [sinc] equal to 1 at 0, lies between
    0 and 1; it is a total function of the reals, with value 1 at the
    central maximum. *)
Theorem intensity_bounded :
  (forall y : R, 0 <= prob y <= 1) /\
  (forall y : R, prob y = (cos (10 * y)) ^ 2 * (np.sinc (2 * y)) ^ 2) /\
  np.sinc 0 = 1 /\ prob 0 = 1.
Proof.
  split; [| split; [reflexivity | split; [exact sinc_0 | exact intensity_0]]].
  intros y. unfold prob.
  pose proof (cos_sqr_bounds (10 * y)).
  pose proof (sinc_sqr_bounds (2 * y)).
  nra.
Qed.

(** * Facts about the histogram *)

Lemma monotonic_map_seq (f : nat -> R) (n a : nat) :
  (forall i, f i <= f (S i)) -> np.monotonic (map f (seq a n)) = true.
Proof.
  intros Hf. revert a.
  induction n as [| n IH]; intros a; [reflexivity |].
  destruct n as [| n]; [reflexivity |].
  specialize (IH (S a)).
  change (seq a (S (S n))) with (a :: seq (S a) (S n)).
  change (seq (S a) (S n)) with (S a :: seq (S (S a)) n) in *.
  cbn [map np.monotonic] in *.
  destruct (Rlt_dec (f (S a)) (f a)) as [Hlt | _]; [| exact IH].
  specialize (Hf a). lra.
Qed.

Lemma last_map_seq (f : nat -> R) (n : nat) (d : R) :
  last (map f (seq 0 (S n))) d = f n.
Proof. rewrite seq_S, map_app. cbn [map]. now rewrite last_last. Qed.

Lemma edges_monotonic : np.monotonic edges = true.
Proof.
  unfold edges, np.linspace. apply monotonic_map_seq.
  intros i. rewrite S_INR. cbn [Nat.sub].
  assert (0 < INR 29) by (apply lt_0_INR; lia).
  assert (0 < (1 - -1) / INR 29) by (apply Rdiv_lt_0_compat; lra).
  nra.
Qed.

Lemma edges_length : length edges = 30%nat.
Proof. unfold edges, np.linspace. now rewrite length_map, length_seq. Qed.

Lemma edges_first : hd 0 edges = -1.
Proof. unfold edges, np.linspace. cbn [seq map hd INR]. lra. Qed.

Lemma edges_last : last edges 0 = 1.
Proof.
  unfold edges, np.linspace. rewrite last_map_seq. cbn [Nat.sub].
  assert (0 < INR 29) by (apply lt_0_INR; lia).
  field. lra.
Qed.

Lemma bin_counts_length (a e : list R) :
  length (np.bin_counts a e) = pred (length e).
Proof.
  induction e as [| lo [| hi more] IH]; try reflexivity.
  cbn [np.bin_counts length] in *. now rewrite IH.
Qed.

Lemma count_pos (p : R -> bool) (x : R) (a : list R) :
  In x a -> p x = true -> (1 <= np.count p a)%nat.
Proof.
  intros Hin Hp. unfold np.count.
  assert (Hf : In x (filter p a)) by (apply filter_In; auto).
  destruct (filter p a); [contradiction | cbn; lia].
Qed.

(** A position between the first and the last edge falls in some bin. *)
Lemma bin_counts_hit (x : R) (a : list R) :
  In x a ->
  forall rest lo d, rest <> [] -> lo <= x <= last rest d ->
    Exists (fun c => (1 <= c)%nat) (np.bin_counts a (lo :: rest)).
Proof.
  intros Hin. induction rest as [| hi more IH]; intros lo d Hne [Hlo Hhi];
    [contradiction |].
  destruct more as [| m more].
  - cbn [last] in Hhi. cbn [np.bin_counts]. apply Exists_cons_hd.
    apply count_pos with x; [assumption |].
    unfold np.in_bin. apply andb_true_intro.
    split; now apply Rleb_true.
  - destruct (Rlt_dec x hi) as [Hlt | Hge].
    + cbn [np.bin_counts]. apply Exists_cons_hd.
      apply count_pos with x; [assumption |].
      unfold np.in_bin. apply andb_true_intro.
      split; [now apply Rleb_true | now apply Rltb_true].
    + change (np.bin_counts a (lo :: hi :: m :: more))
        with (np.count (np.in_bin lo hi false) a
              :: np.bin_counts a (hi :: m :: more)).
      apply Exists_cons_tl. apply (IH hi d); [discriminate |].
      split; [lra |]. exact Hhi.
Qed.

Lemma edges_hit (x : R) (a : list R) :
  In x a -> in_domain x ->
  Exists (fun c => (1 <= c)%nat) (np.bin_counts a edges).
Proof.
  intros Hin [Hlo Hhi].
  pose proof edges_first as Hf. pose proof edges_last as Hl.
  pose proof edges_length as Hlen.
  destruct edges as [| lo rest]; [discriminate |].
  destruct rest as [| hi more]; [discriminate |].
  cbn [hd] in Hf. subst lo.
  apply (bin_counts_hit x a Hin (hi :: more) (-1) 0); [discriminate |].
  split; [assumption |].
  change (last (-1 :: hi :: more) 0) with (last (hi :: more) 0) in Hl.
  lra.
Qed.

Lemma fold_max_ge (cs : list nat) (c : nat) :
  (c <= fold_left Nat.max cs c)%nat /\
  Forall (fun x => (x <= fold_left Nat.max cs c)%nat) cs.
Proof.
  revert c. induction cs as [| x cs IH]; intros c; cbn [fold_left].
  - split; [lia | constructor].
  - destruct (IH (Nat.max c x)) as [H1 H2].
    split; [lia |]. constructor; [lia | assumption].
Qed.

Lemma fold_max_in (cs : list nat) (c : nat) :
  In (fold_left Nat.max cs c) (c :: cs).
Proof.
  revert c. induction cs as [| x cs IH]; intros c; cbn [fold_left].
  - now left.
  - destruct (IH (Nat.max c x)) as [Heq | Hin].
    + destruct (Nat.max_spec c x) as [[_ Hm] | [_ Hm]]; rewrite Hm in *.
      * right; now left.
      * now left.
    + right; now right.
Qed.

Lemma py_max_spec (l : list nat) :
  l <> [] ->
  exists m, py_max l = Done m /\ In m l /\ Forall (fun x => (x <= m)%nat) l.
Proof.
  destruct l as [| c cs]; [contradiction | intros _].
  exists (fold_left Nat.max cs c). split; [reflexivity |].
  split; [apply fold_max_in |].
  destruct (fold_max_ge cs c). now constructor.
Qed.

Lemma set_widths_all (bs hs : list R) :
  length bs = length hs -> set_widths bs hs = hs.
Proof.
  revert hs. induction bs as [| b bs IH]; intros [| h hs] Hlen;
    try discriminate; [reflexivity |].
  cbn [set_widths]. f_equal. apply IH. now injection Hlen.
Qed.

(** * Facts about the sampler and the frame callback *)

Section Facts.

Context {G : Type} `{RandomState G}.

Lemma propose_range (g : G) :
  (-1 <= fst (fst (propose g)) < 1) /\ (0 <= snd (fst (propose g)) < 1).
Proof.
  unfold propose, uniform, random.
  pose proof (random_sample_unit g) as Hy.
  destruct (random_sample g) as [x g1]. cbn [fst] in Hy.
  pose proof (random_sample_unit g1) as Hu.
  destruct (random_sample g1) as [u g2]. cbn [fst snd] in *.
  split; lra.
Qed.

Lemma candidate_in_domain (n : nat) (g : G) : in_domain (candidate n g).
Proof.
  unfold in_domain, candidate.
  destruct (propose_range (passes n g)) as [Hy _]. lra.
Qed.

Lemma rejection_loop_S (fuel : nat) (g : G) :
  rejection_loop (S fuel) g =
  if accepted (candidate 0 g) (threshold 0 g)
  then Done (candidate 0 g, passes 1 g)
  else rejection_loop fuel (passes 1 g).
Proof.
  unfold candidate, threshold. cbn [rejection_loop passes].
  destruct (propose g) as [[y u] g']. reflexivity.
Qed.

(** A pass is two calls in a row: [np.random.uniform(-1, 1)], then
    [np.random.random()] on the generator that the first call leaves. *)
Lemma propose_draws (g : G) :
  propose g =
  (fst (uniform (-1) 1 g),
   fst (random (snd (uniform (-1) 1 g))),
   snd (random (snd (uniform (-1) 1 g)))).
Proof.
  unfold propose. destruct (uniform (-1) 1 g) as [r_y g1]. cbn [fst snd].
  destruct (random g1) as [u g2]. reflexivity.
Qed.

Lemma uniform_draw (low high : R) (g : G) :
  uniform low high g =
  (low + (high - low) * fst (random_sample g), snd (random_sample g)).
Proof. unfold uniform. destruct (random_sample g) as [x g1]. reflexivity. Qed.

Lemma passes_step (n : nat) (g : G) :
  passes (S n) g = snd (propose (passes n g)).
Proof.
  revert g. induction n as [| n IH]; intros g; [reflexivity |].
  change (passes (S (S n)) g) with (passes (S n) (snd (propose g))).
  rewrite IH. reflexivity.
Qed.




Lemma rejection_loop_no_raise (fuel : nat) (g : G) (e : exn) :
  rejection_loop fuel g <> Raise e.
Proof.
  revert g. induction fuel as [| fuel IH]; intros g; [discriminate |].
  rewrite rejection_loop_S.
  destruct (accepted _ _); [discriminate | apply IH].
Qed.

(** While candidates are rejected the loop is still running. *)
Lemma rejection_loop_rejecting (n : nat) (g : G) :
  (forall i, (i < n)%nat -> accepted (candidate i g) (threshold i g) = false) ->
  forall fuel, (fuel <= n)%nat -> rejection_loop fuel g = OutOfFuel.
Proof.
  revert g. induction n as [| n IH]; intros g Hrej fuel Hle.
  - replace fuel with O by lia. reflexivity.
  - destruct fuel as [| fuel]; [reflexivity |].
    rewrite rejection_loop_S, (Hrej O) by lia.
    apply IH; [| lia].
    intros i Hi. apply (Hrej (S i)). lia.
Qed.

(** The first accepted candidate is returned as soon as the fuel covers
    its pass. *)
Lemma rejection_loop_accepting (n : nat) (g : G) :
  (forall i, (i < n)%nat -> accepted (candidate i g) (threshold i g) = false) ->
  accepted (candidate n g) (threshold n g) = true ->
  forall fuel, (n < fuel)%nat ->
    rejection_loop fuel g = Done (candidate n g, passes (S n) g).
Proof.
  revert g. induction n as [| n IH]; intros g Hrej Hacc fuel Hlt;
    (destruct fuel as [| fuel]; [lia |]); rewrite rejection_loop_S.
  - now rewrite Hacc.
  - rewrite (Hrej O) by lia.
    apply (IH (passes 1 g)); [| exact Hacc | lia].
    intros i Hi. apply (Hrej (S i)). lia.
Qed.

Lemma rejection_loop_done (fuel : nat) (g : G) (y : R) (g' : G) :
  rejection_loop fuel g = Done (y, g') ->
  exists n, (n < fuel)%nat /\
    (forall i, (i < n)%nat ->
       accepted (candidate i g) (threshold i g) = false) /\
    accepted (candidate n g) (threshold n g) = true /\
    y = candidate n g /\ g' = passes (S n) g.
Proof.
  revert g. induction fuel as [| fuel IH]; intros g; [discriminate |].
  rewrite rejection_loop_S.
  destruct (accepted (candidate 0 g) (threshold 0 g)) eqn:Hacc.
  - intros [= <- <-]. exists O.
    repeat split; [lia | intros i Hi; lia | assumption].
  - intros Hloop. destruct (IH _ Hloop) as (n & Hn & Hrej & Hok & -> & ->).
    exists (S n). repeat split; [lia | | assumption].
    intros [| i] Hi; [assumption |].
    apply (Hrej i). lia.
Qed.

Lemma rejection_loop_in_domain (fuel : nat) (g : G) (y : R) (g' : G) :
  rejection_loop fuel g = Done (y, g') -> in_domain y.
Proof.
  intros Hloop. destruct (rejection_loop_done _ _ _ _ Hloop)
    as (n & _ & _ & _ & -> & _).
  apply candidate_in_domain.
Qed.

Lemma bin_counts_edges_length (a : list R) :
  length (np.bin_counts a edges) = 29%nat.
Proof. now rewrite bin_counts_length, edges_length. Qed.

Lemma histogram_edges (a : list R) :
  np.histogram a edges = Done (np.bin_counts a edges).
Proof. unfold np.histogram. now rewrite edges_monotonic. Qed.

Lemma bars_of_length (landed bs : list R) :
  bars_of landed bs -> length bs = 29%nat.
Proof.
  destruct landed as [| y l]; cbn [bars_of].
  - intros ->. apply repeat_length.
  - intros (m & _ & _ & ->). now rewrite length_map, bin_counts_edges_length.
Qed.

(** With a landed position in the domain, the largest count is positive
    and line 310 takes its dividing branch. *)
Lemma normalize_landed (landed : list R) :
  landed <> [] -> Forall in_domain landed ->
  exists m, py_max (np.bin_counts landed edges) = Done m /\
            (1 <= m)%nat /\
            normalize (np.bin_counts landed edges) =
            Done (map (fun c => INR c / INR m) (np.bin_counts landed edges)).
Proof.
  intros Hne Hdom.
  destruct landed as [| y l]; [contradiction |].
  assert (Hcounts : np.bin_counts (y :: l) edges <> []).
  { intros Heq. pose proof (bin_counts_edges_length (y :: l)) as Hlen.
    rewrite Heq in Hlen. discriminate. }
  destruct (py_max_spec _ Hcounts) as (m & Hmax & _ & Hle).
  assert (Hm : (1 <= m)%nat).
  { assert (Hhit : Exists (fun c => (1 <= c)%nat)
                     (np.bin_counts (y :: l) edges)).
    { apply edges_hit with y; [now left | now inversion Hdom]. }
    apply Exists_exists in Hhit. destruct Hhit as (c & Hin & Hc).
    rewrite Forall_forall in Hle. specialize (Hle c Hin). lia. }
  exists m. split; [assumption | split; [assumption |]].
  unfold normalize. rewrite Hmax. cbn [bind].
  destruct (Nat.ltb_spec 0 m); [reflexivity | lia].
Qed.

Lemma determine_target_cases (fuel : nat) (f : Z) (s : Scene G) :
  ((f mod 5 <> 0)%Z /\
   determine_target fuel f s = Done (landed_y s, rng s)) \/
  ((f mod 5 = 0)%Z /\ exists y g1,
      rejection_loop fuel (rng s) = Done (y, g1) /\
      determine_target fuel f s = Done (landed_y s ++ [y], g1)) \/
  ((f mod 5 = 0)%Z /\ rejection_loop fuel (rng s) = OutOfFuel /\
   determine_target fuel f s = OutOfFuel).
Proof.
  unfold determine_target.
  destruct (Z.eqb_spec (f mod 5) 0) as [Hz | Hnz]; [| now left].
  right. destruct (rejection_loop fuel (rng s)) as [[y g1] | e |] eqn:Hloop.
  - left. split; [assumption |]. now exists y, g1.
  - now apply rejection_loop_no_raise in Hloop.
  - right. now repeat split.
Qed.

Lemma animate_after_target (fuel : nat) (f : Z) (s : Scene G)
      (landed : list R) (g1 : G) :
  scene_inv s ->
  determine_target fuel f s = Done (landed, g1) ->
  Forall in_domain landed ->
  (landed = [] -> landed_y s = []) ->
  exists bs,
    animate fuel f s =
    Done (mkScene edges bs landed (dot_after f landed (dot s))
            (fst (normal 0 0.1 (length landed) g1), landed)
            (snd (normal 0 0.1 (length landed) g1))) /\
    bars_of landed bs.
Proof.
  intros [Hbins Hdom Hbars Hdot] Htarget Hin Hempty.
  unfold animate. rewrite Htarget. cbn [bind].
  destruct (normal 0 0.1 (length landed) g1) as [xs g2]. cbn [fst snd].
  rewrite Hbins, histogram_edges. cbn [bind].
  destruct landed as [| y l].
  - cbn [length Nat.ltb Nat.leb]. exists (bars s). split; [reflexivity |].
    rewrite (Hempty eq_refl) in Hbars. exact Hbars.
  - change (0 <? length (y :: l))%nat with true. cbv iota.
    destruct (normalize_landed (y :: l)) as (m & Hmax & Hm & Hnorm);
      [discriminate | assumption |].
    rewrite Hnorm. cbn [bind].
    rewrite set_widths_all.
    + eexists. split; [reflexivity |]. cbn [bars_of].
      exists m. split; [exact Hmax | split; [exact Hm | reflexivity]].
    + rewrite (bars_of_length _ _ Hbars).
      now rewrite length_map, bin_counts_edges_length.
Qed.

(** The shape of any frame that returns, on any scene. *)
Lemma animate_done_shape (fuel : nat) (f : Z) (s s' : Scene G) :
  animate fuel f s = Done s' ->
  exists g1,
    determine_target fuel f s = Done (landed_y s', g1) /\
    dot s' = dot_after f (landed_y s') (dot s) /\
    bins s' = bins s /\
    impacts s' = (fst (normal 0 0.1 (length (landed_y s')) g1), landed_y s') /\
    rng s' = snd (normal 0 0.1 (length (landed_y s')) g1).
Proof.
  unfold animate.
  destruct (determine_target fuel f s) as [[landed g1] | e |];
    cbn [bind]; try discriminate.
  destruct (normal 0 0.1 (length landed) g1) as [xs g2] eqn:Hnormal.
  destruct (np.histogram landed (bins s)) as [hist | e |];
    cbn [bind]; try discriminate.
  destruct (0 <? length landed)%nat.
  - destruct (normalize hist) as [h | e |]; cbn [bind]; try discriminate.
    intros [= <-]. cbn [landed_y dot bins impacts rng].
    exists g1. rewrite Hnormal. now repeat split.
  - intros [= <-]. cbn [landed_y dot bins impacts rng].
    exists g1. rewrite Hnormal. now repeat split.
Qed.

(** The count of landed particles across one returning frame. *)
Lemma animate_landed (fuel : nat) (f : Z) (s s' : Scene G) :
  animate fuel f s = Done s' ->
  ((f mod 5 <> 0)%Z /\ landed_y s' = landed_y s) \/
  ((f mod 5 = 0)%Z /\ exists y g1,
      rejection_loop fuel (rng s) = Done (y, g1) /\
      landed_y s' = landed_y s ++ [y]).
Proof.
  intros Hdone.
  destruct (animate_done_shape _ _ _ _ Hdone) as (g1 & Htarget & _).
  destruct (determine_target_cases fuel f s)
    as [[Hnz Ht] | [[Hz (y & g' & Hloop & Ht)] | [Hz [_ Ht]]]];
    rewrite Ht in Htarget; try discriminate.
  - left. split; [assumption |]. now injection Htarget.
  - right. split; [assumption |]. exists y, g'.
    split; [assumption |]. now injection Htarget.
Qed.

(** Between two sampling frames a frame always returns. *)
Lemma animate_steady (fuel : nat) (f : Z) (s : Scene G) :
  scene_inv s -> (f mod 5 <> 0)%Z ->
  exists s', animate fuel f s = Done s' /\ scene_inv s' /\
             landed_y s' = landed_y s /\
             dot s' = dot_after f (landed_y s) (dot s).
Proof.
  intros Hinv Hnz.
  destruct (determine_target_cases fuel f s)
    as [[_ Ht] | [[Hz _] | [Hz _]]]; try contradiction.
  destruct (animate_after_target fuel f s _ _ Hinv Ht) as (bs & Hdone & Hbars);
    [apply Hinv | auto |].
  eexists. split; [exact Hdone |].
  split; [| split; reflexivity].
  constructor; cbn [bins landed_y bars dot];
    [reflexivity | apply Hinv | assumption |].
  intros Hnil. unfold dot_after. rewrite Hnil. now apply Hinv.
Qed.

(** On a sampling frame the accepted candidate is appended. *)
Lemma animate_sampling (fuel : nat) (f : Z) (s : Scene G) (y : R) (g1 : G) :
  scene_inv s -> (f mod 5 = 0)%Z ->
  rejection_loop fuel (rng s) = Done (y, g1) ->
  exists s', animate fuel f s = Done s' /\ scene_inv s' /\
             landed_y s' = landed_y s ++ [y] /\
             dot s' = Some (flight f y).
Proof.
  intros Hinv Hz Hloop.
  assert (Ht : determine_target fuel f s = Done (landed_y s ++ [y], g1)).
  { unfold determine_target. rewrite Hz, Hloop. reflexivity. }
  assert (Hdom : Forall in_domain (landed_y s ++ [y])).
  { apply Forall_app. split; [apply Hinv |].
    constructor; [| constructor]. eapply rejection_loop_in_domain; eassumption. }
  destruct (animate_after_target fuel f s _ _ Hinv Ht Hdom) as (bs & Hdone & Hbars).
  { intros Heq. now apply app_eq_nil in Heq. }
  eexists. split; [exact Hdone |].
  split; [| split; [reflexivity |]].
  - constructor; cbn [bins landed_y bars dot];
      [reflexivity | assumption | assumption |].
    intros Hnil. now apply app_eq_nil in Hnil.
  - cbn [dot]. unfold dot_after. rewrite last_last.
    destruct (landed_y s); reflexivity.
Qed.

Lemma animate_waiting (fuel : nat) (f : Z) (s : Scene G) :
  (f mod 5 = 0)%Z -> rejection_loop fuel (rng s) = OutOfFuel ->
  animate fuel f s = OutOfFuel.
Proof.
  intros Hz Hloop. unfold animate, determine_target.
  rewrite Hz, Hloop. reflexivity.
Qed.

Lemma animate_inv (fuel : nat) (f : Z) (s s' : Scene G) :
  scene_inv s -> animate fuel f s = Done s' -> scene_inv s'.
Proof.
  intros Hinv Hdone.
  destruct (animate_landed _ _ _ _ Hdone) as [[Hnz _] | [Hz (y & g1 & Hloop & _)]].
  - destruct (animate_steady fuel f s Hinv Hnz) as (s1 & Hd & Hi & _).
    rewrite Hd in Hdone. now injection Hdone as <-.
  - destruct (animate_sampling fuel f s y g1 Hinv Hz Hloop) as (s1 & Hd & Hi & _).
    rewrite Hd in Hdone. now injection Hdone as <-.
Qed.

Lemma animate_no_raise (fuel : nat) (f : Z) (s : Scene G) (e : exn) :
  scene_inv s -> animate fuel f s <> Raise e.
Proof.
  intros Hinv Hraise.
  destruct (determine_target_cases fuel f s)
    as [[Hnz _] | [[Hz (y & g1 & Hloop & _)] | [Hz [Hloop _]]]].
  - destruct (animate_steady fuel f s Hinv Hnz) as (s1 & Hd & _). congruence.
  - destruct (animate_sampling fuel f s y g1 Hinv Hz Hloop) as (s1 & Hd & _).
    congruence.
  - rewrite (animate_waiting fuel f s Hz Hloop) in Hraise. discriminate.
Qed.

Lemma setup_inv (g : G) (s : Scene G) :
  show_doubleslit g = Done s -> scene_inv s.
Proof.
  unfold show_doubleslit. intros [= <-].
  constructor; cbn [bins landed_y bars dot];
    [reflexivity | constructor | reflexivity | reflexivity].
Qed.

Lemma reachable_inv (s : Scene G) : reachable s -> scene_inv s.
Proof.
  induction 1 as [g s Hsetup | fuel f s s' _ IH Hdone].
  - eapply setup_inv; eassumption.
  - eapply animate_inv; eassumption.
Qed.

End Facts.

(** * Runs of the driver *)

Section Runs.

Context {G : Type} `{RandomState G}.


Lemma run_frames (fuel n : nat) (g : G) :
  run fuel n g = frames fuel n (fresh g).
Proof. reflexivity. Qed.

Lemma fresh_inv (g : G) : scene_inv (fresh g).
Proof. apply (setup_inv g). reflexivity. Qed.

Lemma frames_S_done (fuel k : nat) (s s' : Scene G) :
  frames fuel (S k) s = Done s' ->
  exists s1, frames fuel k s = Done s1 /\
             animate fuel (Z.of_nat k) s1 = Done s'.
Proof.
  cbn [frames].
  destruct (frames fuel k s) as [s1 | e |]; cbn [bind]; try discriminate.
  intros Hdone. now exists s1.
Qed.

Lemma frames_inv (fuel n : nat) (s s' : Scene G) :
  scene_inv s -> frames fuel n s = Done s' -> scene_inv s'.
Proof.
  intros Hinv. revert s'.
  induction n as [| k IH]; intros s'.
  - intros [= <-]. assumption.
  - intros Hdone. destruct (frames_S_done _ _ _ _ Hdone) as (s1 & Hk & Hlast).
    eapply animate_inv; [apply IH |]; eassumption.
Qed.

Lemma frames_reachable (fuel n : nat) (s s' : Scene G) :
  reachable s -> frames fuel n s = Done s' -> reachable s'.
Proof.
  intros Hreach. revert s'.
  induction n as [| k IH]; intros s'.
  - intros [= <-]. assumption.
  - intros Hdone. destruct (frames_S_done _ _ _ _ Hdone) as (s1 & Hk & Hlast).
    eapply reach_animate; [apply IH |]; eassumption.
Qed.

Lemma run_reachable (fuel n : nat) (g : G) (s : Scene G) :
  run fuel n g = Done s -> reachable s.
Proof.
  rewrite run_frames. apply frames_reachable.
  apply (reach_setup g). reflexivity.
Qed.

Lemma animate_count (fuel : nat) (f : Z) (s s' : Scene G) :
  animate fuel f s = Done s' ->
  length (landed_y s') =
  (length (landed_y s) + (if (f mod 5 =? 0)%Z then 1 else 0))%nat.
Proof.
  intros Hdone.
  destruct (animate_landed _ _ _ _ Hdone)
    as [[Hnz ->] | [Hz (y & g1 & _ & ->)]].
  - destruct (Z.eqb_spec (f mod 5) 0); [contradiction | lia].
  - rewrite Hz, length_app. reflexivity.
Qed.

(** After the frames [0 .. n-1], one particle for each multiple of 5
    below [n]. *)
Lemma frames_count (fuel n : nat) (s s' : Scene G) :
  frames fuel n s = Done s' ->
  length (landed_y s') = (length (landed_y s) + (n + 4) / 5)%nat.
Proof.
  revert s'. induction n as [| k IH]; intros s'.
  - intros [= <-]. cbn. lia.
  - intros Hdone. destruct (frames_S_done _ _ _ _ Hdone) as (s1 & Hk & Hlast).
    rewrite (animate_count _ _ _ _ Hlast), (IH _ Hk).
    destruct (Z.eqb_spec (Z.of_nat k mod 5) 0) as [Hz | Hnz].
    + div_lia.
    + div_lia.
Qed.

Lemma frames_no_raise (fuel n : nat) (s : Scene G) (e : exn) :
  scene_inv s -> frames fuel n s <> Raise e.
Proof.
  intros Hinv. induction n as [| k IH]; [discriminate |].
  cbn [frames].
  destruct (frames fuel k s) as [s1 | e1 |] eqn:Hk; cbn [bind].
  - apply animate_no_raise. eapply frames_inv; eassumption.
  - exact IH.
  - discriminate.
Qed.

(** After the frames [0 .. f] something has landed and the dot is set. *)
Lemma run_has_target (fuel f : nat) (g : G) (s : Scene G) :
  run fuel (S f) g = Done s ->
  length (landed_y s) = (f / 5 + 1)%nat /\
  landed_y s <> [] /\
  dot s = Some (flight (Z.of_nat f) (last (landed_y s) 0)).
Proof.
  intros Hrun.
  assert (Hlen : length (landed_y s) = (f / 5 + 1)%nat).
  { rewrite run_frames in Hrun. rewrite (frames_count _ _ _ _ Hrun).
    cbn [fresh landed_y length]. div_lia. }
  assert (Hne : landed_y s <> []).
  { intros Heq. rewrite Heq in Hlen. cbn [length] in Hlen. lia. }
  rewrite run_frames in Hrun.
  destruct (frames_S_done _ _ _ _ Hrun) as (s1 & _ & Hlast).
  destruct (animate_done_shape _ _ _ _ Hlast) as (_ & _ & Hdot & _).
  split; [assumption |]. split; [assumption |].
  rewrite Hdot. destruct (landed_y s); [contradiction | reflexivity].
Qed.

End Runs.

(** * Facts about the tape generator *)

Lemma tape_value_0 : tape_value 0 = 0.
Proof. unfold tape_value. cbn [INR]. lra. Qed.

Lemma tape_value_1 : tape_value 1 = 1 / 2.
Proof. unfold tape_value. cbn [INR]. lra. Qed.

Lemma tape_propose (a b : nat) (t : list nat) :
  propose (a :: b :: t) =
  (-1 + (1 - -1) * tape_value a, tape_value b, t ++ [a; b]).
Proof.
  unfold propose, uniform, random.
  cbn [random_sample TapeRandom tape_next app].
  now rewrite <- app_assoc.
Qed.

Lemma tape_propose_single (a : nat) :
  propose [a] = (-1 + (1 - -1) * tape_value a, tape_value a, [a]).
Proof. reflexivity. Qed.

Lemma tape_normal_single (loc scale : R) (size a : nat) :
  snd (tape_normal loc scale size [a]) = [a].
Proof.
  induction size as [| n IH]; [reflexivity |].
  cbn [tape_normal tape_next app].
  destruct (tape_normal loc scale n [a]) as [xs t2]. exact IH.
Qed.

Lemma accepted_centre (u : R) : u < 1 -> accepted 0 u = true.
Proof. intros Hu. unfold accepted. rewrite intensity_0. now apply Rltb_true. Qed.

Lemma rejected_edge (u : R) : 1 / 2 <= u -> accepted (-1) u = false.
Proof.
  intros Hu. unfold accepted. apply Rltb_false.
  pose proof intensity_minus_1. lra.
Qed.

(** The tape of draws 1/2, 1/2, ...: every candidate is the centre and is
    accepted at once. *)
Lemma half_tape_pass :
  candidate 0 [1%nat] = 0 /\ threshold 0 [1%nat] = 1 / 2 /\
  passes 1 [1%nat] = [1%nat].
Proof.
  unfold candidate, threshold. cbn [passes]. rewrite tape_propose_single.
  cbn [fst snd]. rewrite tape_value_1. repeat split; lra.
Qed.

Lemma half_tape_loop (fuel : nat) :
  rejection_loop (S fuel) [1%nat] = Done (0, [1%nat]).
Proof.
  rewrite rejection_loop_S.
  destruct half_tape_pass as (-> & -> & ->).
  rewrite accepted_centre by lra. reflexivity.
Qed.

(** The tape of draws 0, 1/2, 0, 1/2, ...: every candidate is the edge
    [-1], against the threshold 1/2, and is rejected. *)
Lemma edge_tape_pass :
  candidate 0 [0%nat; 1%nat] = -1 /\ threshold 0 [0%nat; 1%nat] = 1 / 2 /\
  passes 1 [0%nat; 1%nat] = [0%nat; 1%nat].
Proof.
  unfold candidate, threshold. cbn [passes]. rewrite tape_propose.
  cbn [fst snd app]. rewrite tape_value_0, tape_value_1. repeat split; lra.
Qed.

Lemma edge_tape_loop (fuel : nat) :
  rejection_loop fuel [0%nat; 1%nat] = OutOfFuel.
Proof.
  induction fuel as [| fuel IH]; [reflexivity |].
  rewrite rejection_loop_S.
  destruct edge_tape_pass as (-> & -> & ->).
  rewrite rejected_edge by lra. exact IH.
Qed.

(** A tape that starts with [n] rejected pairs. *)
Lemma rejecting_prefix (n fuel : nat) (t : list nat) :
  rejection_loop (n + fuel) (rejected_pairs n ++ t) =
  rejection_loop fuel (t ++ rejected_pairs n).
Proof.
  revert t. induction n as [| n IH]; intros t.
  - cbn [rejected_pairs Nat.add app]. now rewrite app_nil_r.
  - cbn [rejected_pairs app Nat.add]. rewrite rejection_loop_S.
    unfold candidate, threshold. cbn [passes]. rewrite tape_propose.
    cbn [fst snd]. rewrite tape_value_0, tape_value_1.
    replace (-1 + (1 - -1) * 0) with (-1) by lra.
    rewrite rejected_edge by lra.
    rewrite <- app_assoc, IH, <- app_assoc. reflexivity.
Qed.

(** On the tape of draws 1/2 every frame returns, with fuel for one pass. *)
Lemma half_tape_animate (fuel : nat) (f : Z) (s : Scene (list nat)) :
  scene_inv s -> rng s = [1%nat] ->
  exists s', animate (S fuel) f s = Done s' /\ rng s' = [1%nat].
Proof.
  intros Hinv Hrng.
  assert (Hdone : exists s', animate (S fuel) f s = Done s').
  { destruct (Z.eq_dec (f mod 5) 0) as [Hz | Hnz].
    - destruct (animate_sampling (S fuel) f s 0 [1%nat] Hinv Hz) as (s' & Hd & _).
      + rewrite Hrng. apply half_tape_loop.
      + now exists s'.
    - destruct (animate_steady (S fuel) f s Hinv Hnz) as (s' & Hd & _).
      now exists s'. }
  destruct Hdone as (s' & Hdone). exists s'. split; [assumption |].
  destruct (animate_done_shape _ _ _ _ Hdone) as (g1 & Ht & _ & _ & _ & ->).
  assert (Hg1 : g1 = [1%nat]).
  { destruct (determine_target_cases (S fuel) f s)
      as [[_ Ht'] | [[_ (y & g' & Hloop & Ht')] | [_ [_ Ht']]]];
      rewrite Ht' in Ht; try discriminate.
    - injection Ht as _ <-. assumption.
    - injection Ht as _ <-. rewrite Hrng, half_tape_loop in Hloop.
      now injection Hloop. }
  rewrite Hg1. apply tape_normal_single.
Qed.

Lemma half_tape_frames (n : nat) (s : Scene (list nat)) :
  scene_inv s -> rng s = [1%nat] ->
  exists s', frames 1 n s = Done s' /\ rng s' = [1%nat].
Proof.
  intros Hinv Hrng. induction n as [| k IH].
  - now exists s.
  - destruct IH as (s1 & Hk & Hrng1).
    destruct (half_tape_animate 0 (Z.of_nat k) s1) as (s' & Hd & Hrng');
      [eapply frames_inv; eassumption | assumption |].
    exists s'. cbn [frames]. rewrite Hk. cbn [bind]. now split.
Qed.

Lemma half_tape_run (n : nat) : exists s, run 1 n [1%nat] = Done s.
Proof.
  destruct (half_tape_frames n (fresh [1%nat])) as (s & Hd & _);
    [apply fresh_inv | reflexivity |].
  exists s. now rewrite run_frames.
Qed.

(** Counts divided by their positive maximum. *)
Lemma normalized_heights (counts : list nat) (m : nat) :
  py_max counts = Done m -> (1 <= m)%nat ->
  Forall (fun h => 0 <= h <= 1) (map (fun c => INR c / INR m) counts) /\
  Exists (fun h => h = 1) (map (fun c => INR c / INR m) counts).
Proof.
  intros Hmax Hm.
  assert (Hne : counts <> []) by (intros ->; discriminate).
  destruct (py_max_spec counts Hne) as (m' & Hmax' & Hin & Hle).
  rewrite Hmax in Hmax'. injection Hmax' as <-.
  assert (Hpos : 0 < INR m) by (apply lt_0_INR; lia).
  split.
  - apply Forall_map. eapply Forall_impl; [| exact Hle].
    intros c Hc. cbn beta.
    pose proof (pos_INR c). apply le_INR in Hc.
    split.
    + apply Rmult_le_reg_r with (INR m); [assumption |].
      unfold Rdiv. rewrite Rmult_assoc, Rinv_l by lra. lra.
    + apply Rmult_le_reg_r with (INR m); [assumption |].
      unfold Rdiv. rewrite Rmult_assoc, Rinv_l by lra. lra.
  - apply Exists_exists. exists (INR m / INR m). split.
    + apply in_map_iff. now exists m.
    + apply Rdiv_diag. lra.
Qed.

Lemma flight_lerp (f : Z) (target : R) :
  flight f target =
  lerp flight_start (landing_point target) (IZR (f mod 5) / 5).
Proof.
  unfold flight, lerp, flight_start, landing_point. cbn [fst snd].
  f_equal; lra.
Qed.

Lemma sub_frame_fraction (f : Z) :
  (f mod 5 <> 0)%Z -> 0 < IZR (f mod 5) / 5 < 1.
Proof.
  intros Hnz.
  assert (Hsub : (1 <= f mod 5 <= 4)%Z) by (pose proof (Z.mod_pos_bound f 5); lia).
  destruct Hsub as [Hlo Hhi]. apply IZR_le in Hlo, Hhi. lra.
Qed.

Lemma dot_after_landed (f : Z) (landed : list R) (old : option (R * R)) :
  landed <> [] -> dot_after f landed old = Some (flight f (last landed 0)).
Proof. destruct landed; [contradiction | reflexivity]. Qed.

(** A tape whose first pass proposes the centre with threshold 0. *)
Lemma centre_first_loop (fuel : nat) (t : list nat) :
  rejection_loop (S fuel) (1%nat :: 0%nat :: t) = Done (0, t ++ [1%nat; 0%nat]).
Proof.
  rewrite rejection_loop_S. unfold candidate, threshold. cbn [passes].
  rewrite tape_propose. cbn [fst snd]. rewrite tape_value_1, tape_value_0.
  replace (-1 + (1 - -1) * (1 / 2)) with 0 by lra.
  rewrite accepted_centre by lra. reflexivity.
Qed.

Lemma stubborn_tape_rejecting :
  rejection_loop (S suggested_retry_cap) stubborn_tape = OutOfFuel.
Proof.
  rewrite <- (Nat.add_0_r (S suggested_retry_cap)) at 1.
  unfold stubborn_tape. now rewrite rejecting_prefix.
Qed.

Lemma stubborn_tape_accepting :
  rejection_loop (S (S suggested_retry_cap)) stubborn_tape =
  Done (0, stubborn_tape).
Proof.
  rewrite <- (Nat.add_1_r (S suggested_retry_cap)) at 1.
  unfold stubborn_tape. rewrite rejecting_prefix.
  cbn [app]. apply centre_first_loop.
Qed.

(** One rejected pair, then the centre. *)
Lemma late_tape_passes :
  candidate 0 [0; 1; 1; 0]%nat = -1 /\ threshold 0 [0; 1; 1; 0]%nat = 1 / 2 /\
  candidate 1 [0; 1; 1; 0]%nat = 0 /\ threshold 1 [0; 1; 1; 0]%nat = 0.
Proof.
  unfold candidate, threshold. cbn [passes].
  rewrite !tape_propose. cbn [fst snd app]. rewrite !tape_propose.
  cbn [fst snd]. rewrite tape_value_1, tape_value_0. repeat split; lra.
Qed.

(** * The claims *)

Section Claims.

Context {G : Type} `{RandomState G}.

(** C1. Each pass of the sampler draws a candidate with
    [np.random.uniform(-1, 1)], that is [-1 + 2 x] for the next draw [x]
    of the generator, and then a threshold with [np.random.random()], the
    draw after it; candidates lie in [-1, 1] and thresholds in [0, 1).
    The sampler returns the first candidate whose threshold is below its
    intensity, with the generator as that pass leaves it.  A first pass
    that proposes the centre 0 with threshold 0, where the intensity is 1,
    is accepted at once, with no retry. *)
Theorem sampler_returns_first_accepted :
  (forall (low high : R) (g : G),
      uniform low high g =
      (low + (high - low) * fst (random_sample g), snd (random_sample g))) /\
  (forall g : G, random g = random_sample g) /\
  (forall (n : nat) (g : G),
      passes 0 g = g /\
      candidate n g = fst (uniform (-1) 1 (passes n g)) /\
      threshold n g = fst (random (snd (uniform (-1) 1 (passes n g)))) /\
      passes (S n) g = snd (random (snd (uniform (-1) 1 (passes n g))))) /\
  (forall (fuel : nat) (g : G) (y : R) (g' : G),
      rejection_loop fuel g = Done (y, g') <->
      exists n, (n < fuel)%nat /\
        (forall i, (i < n)%nat ->
           ~ threshold i g < prob (candidate i g)) /\
        threshold n g < prob (candidate n g) /\
        y = candidate n g /\ g' = passes (S n) g) /\
  (forall (n : nat) (g : G),
      -1 <= candidate n g <= 1 /\ 0 <= threshold n g < 1) /\
  (forall g : G,
      fst (uniform (-1) 1 g) = 0 ->
      fst (random (snd (uniform (-1) 1 g))) = 0 ->
      prob 0 = 1 /\
      rejection_loop 1 g = Done (0, snd (random (snd (uniform (-1) 1 g))))).
Proof.
  split; [exact uniform_draw |].
  split; [reflexivity |].
  split; [| split; [| split]].
  - intros n g. split; [reflexivity |].
    unfold candidate, threshold.
    rewrite passes_step, (propose_draws (passes n g)). now cbn [fst snd].
  - intros fuel g y g'. split.
    + intros Hloop.
      destruct (rejection_loop_done _ _ _ _ Hloop)
        as (n & Hn & Hrej & Hacc & Hy & Hg).
      exists n. split; [assumption |].
      split; [| split; [now apply Rltb_true | now split]].
      intros i Hi Hlt. specialize (Hrej i Hi).
      apply Rltb_false in Hrej. lra.
    + intros (n & Hn & Hrej & Hacc & -> & ->).
      apply rejection_loop_accepting; [| now apply Rltb_true | assumption].
      intros i Hi. apply Rltb_false. specialize (Hrej i Hi). lra.
  - intros n g. split; [apply candidate_in_domain |].
    unfold threshold. apply propose_range.
  - intros g Hy Hu. split; [exact intensity_0 |].
    rewrite rejection_loop_S. unfold candidate, threshold. cbn [passes].
    rewrite (propose_draws g). cbn [fst snd]. rewrite Hy, Hu.
    rewrite accepted_centre by lra. reflexivity.
Qed.

(** C3. A frame that returns leaves one more landed particle when its
    index is a multiple of 5 and the same particles otherwise (and in the
    animation it does return, as soon as the sampler has), so the count
    never decreases along a run; before any frame the count is 0 and the
    29 bars have width 0, and after the 50 frames 0..49 it is 10. *)
Theorem particle_count_follows_cadence :
  (forall (fuel : nat) (f : Z) (s s' : Scene G),
      animate fuel f s = Done s' ->
      length (landed_y s') =
      (length (landed_y s) + (if (f mod 5 =? 0)%Z then 1 else 0))%nat) /\
  (forall (fuel : nat) (f : Z) (s : Scene G),
      reachable s -> (f mod 5 <> 0)%Z ->
      exists s', animate fuel f s = Done s' /\ landed_y s' = landed_y s) /\
  (forall (fuel : nat) (f : Z) (s : Scene G) (y : R) (g1 : G),
      reachable s -> (f mod 5 = 0)%Z ->
      rejection_loop fuel (rng s) = Done (y, g1) ->
      exists s', animate fuel f s = Done s' /\
                 landed_y s' = landed_y s ++ [y]) /\
  (forall (fuel n : nat) (g : G) (s : Scene G),
      run fuel n g = Done s ->
      length (landed_y s) = ((n + 4) / 5)%nat) /\
  (forall (fuel n m : nat) (g : G) (s1 s2 : Scene G),
      (n <= m)%nat -> run fuel n g = Done s1 -> run fuel m g = Done s2 ->
      (length (landed_y s1) <= length (landed_y s2))%nat) /\
  (forall (fuel : nat) (g : G),
      exists s0, run fuel 0 g = Done s0 /\ landed_y s0 = [] /\
                 bars s0 = repeat 0 29) /\
  (forall (fuel : nat) (g : G) (s : Scene G),
      run fuel 50 g = Done s -> length (landed_y s) = 10%nat).
Proof.
  assert (Hcount : forall (fuel n : nat) (g : G) (s : Scene G),
             run fuel n g = Done s ->
             length (landed_y s) = ((n + 4) / 5)%nat).
  { intros fuel n g s. rewrite run_frames. intros Hdone.
    now rewrite (frames_count _ _ _ _ Hdone). }
  split; [exact animate_count |].
  split.
  { intros fuel f s Hreach Hnz.
    destruct (animate_steady fuel f s (reachable_inv s Hreach) Hnz)
      as (s' & Hdone & _ & Hl & _).
    now exists s'. }
  split.
  { intros fuel f s y g1 Hreach Hz Hloop.
    destruct (animate_sampling fuel f s y g1 (reachable_inv s Hreach) Hz Hloop)
      as (s' & Hdone & _ & Hl & _).
    now exists s'. }
  split; [exact Hcount |].
  split; [| split].
  - intros fuel n m g s1 s2 Hle H1 H2.
    rewrite (Hcount _ _ _ _ H1), (Hcount _ _ _ _ H2). div_lia.
  - intros fuel g. exists (fresh g). now repeat split.
  - intros fuel g s Hdone. now rewrite (Hcount _ _ _ _ Hdone).
Qed.

(** C4. In every scene of the animation each bar width lies in [0, 1];
    once a particle has landed the widths are the bin counts divided by
    the largest count, so some bar has width exactly 1; while nothing has
    landed all 29 bars have width 0. *)
Theorem histogram_heights_normalized :
  forall s : Scene G,
    reachable s ->
    length (bars s) = 29%nat /\
    Forall (fun h => 0 <= h <= 1) (bars s) /\
    (landed_y s <> [] ->
       Exists (fun h => h = 1) (bars s) /\
       exists m, py_max (np.bin_counts (landed_y s) (bins s)) = Done m /\
                 bars s = map (fun c => INR c / INR m)
                              (np.bin_counts (landed_y s) (bins s))) /\
    (landed_y s = [] -> Forall (fun h => h = 0) (bars s)).
Proof.
  intros s Hreach.
  destruct (reachable_inv s Hreach) as [Hbins Hdom Hbars _].
  split; [eapply bars_of_length; eassumption |].
  rewrite Hbins.
  destruct (landed_y s) as [| y l]; cbn [bars_of] in Hbars.
  - rewrite Hbars. unfold np.zeros.
    split; [| split; [intros Hne; now contradiction Hne |]].
    + apply Forall_forall. intros h Hh. apply repeat_spec in Hh. lra.
    + intros _. apply Forall_forall. intros h Hh. now apply repeat_spec in Hh.
  - destruct Hbars as (m & Hmax & Hm & ->).
    destruct (normalized_heights _ m Hmax Hm) as [Hall Hone].
    split; [assumption |].
    split; [| intros Hnil; discriminate].
    intros _. split; [assumption |].
    exists m. split; [exact Hmax | reflexivity].
Qed.

(** C9. Every landed position lies in [-1, 1]; so once a particle has
    landed the largest of the 29 bin counts is at least 1 and line 310
    divides by it: the branch that would leave the counts undivided is
    never taken. *)
Theorem landed_positions_fill_a_bin :
  forall s : Scene G,
    reachable s ->
    Forall (fun y => -1 <= y <= 1) (landed_y s) /\
    (landed_y s <> [] ->
       exists hist m,
         np.histogram (landed_y s) (bins s) = Done hist /\
         length hist = 29%nat /\
         py_max hist = Done m /\ (1 <= m)%nat /\ (0 <? m)%nat = true /\
         normalize hist = Done (map (fun c => INR c / INR m) hist)).
Proof.
  intros s Hreach.
  destruct (reachable_inv s Hreach) as [Hbins Hdom _ _].
  split; [exact Hdom |].
  intros Hne. rewrite Hbins, histogram_edges.
  destruct (normalize_landed _ Hne Hdom) as (m & Hmax & Hm & Hnorm).
  exists (np.bin_counts (landed_y s) edges), m.
  split; [reflexivity |].
  split; [apply bin_counts_edges_length |].
  split; [assumption |].
  split; [assumption |].
  split; [now apply Nat.ltb_lt | assumption].
Qed.

(** C10. Frame 0 samples, so after the frames 0..f of a run there are
    [f / 5 + 1] landed particles, never none, and the dot has a position
    on every frame, frame 0 included. *)
Theorem every_frame_has_a_particle_in_flight :
  (forall (fuel : nat) (s s' : Scene G),
      animate fuel 0 s = Done s' -> landed_y s' <> [] /\ dot s' <> None) /\
  (forall (fuel f : nat) (g : G) (s : Scene G),
      run fuel (S f) g = Done s ->
      length (landed_y s) = (f / 5 + 1)%nat /\
      landed_y s <> [] /\
      dot s = Some (flight (Z.of_nat f) (last (landed_y s) 0)) /\
      dot s <> None).
Proof.
  split.
  - intros fuel s s' Hdone.
    destruct (animate_done_shape _ _ _ _ Hdone) as (_ & _ & Hdot & _).
    destruct (animate_landed _ _ _ _ Hdone)
      as [[Hnz _] | [_ (y & g1 & _ & Hl)]]; [now contradiction Hnz |].
    assert (Hne : landed_y s' <> []).
    { rewrite Hl. intros Heq. now apply app_eq_nil in Heq. }
    split; [assumption |].
    rewrite Hdot, dot_after_landed by assumption. discriminate.
  - intros fuel f g s Hrun.
    destruct (run_has_target fuel f g s Hrun) as (Hlen & Hne & Hdot).
    rewrite Hdot.
    split; [assumption |]. split; [assumption |].
    split; [reflexivity | discriminate].
Qed.

(** C5, as the code has it. The sampler has no retry cap and no failure:
    it never raises, it is still drawing after any number of rejected
    candidates, and it returns the first accepted one however late it
    comes; a sampling frame that returns has appended one position, and
    it does not return while the sampler is drawing. *)
Theorem sampler_never_gives_up :
  (forall (fuel : nat) (g : G) (e : exn), rejection_loop fuel g <> Raise e) /\
  (forall (n : nat) (g : G),
      (forall i, (i < n)%nat ->
         ~ threshold i g < prob (candidate i g)) ->
      (forall fuel, (fuel <= n)%nat -> rejection_loop fuel g = OutOfFuel) /\
      (threshold n g < prob (candidate n g) ->
       forall fuel, (n < fuel)%nat ->
         rejection_loop fuel g = Done (candidate n g, passes (S n) g))) /\
  (forall (fuel : nat) (f : Z) (s s' : Scene G),
      (f mod 5 = 0)%Z -> animate fuel f s = Done s' ->
      exists y, landed_y s' = landed_y s ++ [y]) /\
  (forall (fuel : nat) (f : Z) (s : Scene G),
      (f mod 5 = 0)%Z -> rejection_loop fuel (rng s) = OutOfFuel ->
      animate fuel f s = OutOfFuel).
Proof.
  split; [exact rejection_loop_no_raise |].
  split; [| split; [| exact animate_waiting]].
  - intros n g Hrej.
    assert (Hrej' : forall i, (i < n)%nat ->
               accepted (candidate i g) (threshold i g) = false).
    { intros i Hi. apply Rltb_false. specialize (Hrej i Hi). lra. }
    split.
    + now apply rejection_loop_rejecting.
    + intros Hacc. apply rejection_loop_accepting; [assumption |].
      now apply Rltb_true.
  - intros fuel f s s' Hz Hdone.
    destruct (animate_landed _ _ _ _ Hdone)
      as [[Hnz _] | [_ (y & g1 & _ & Hl)]]; [contradiction |].
    now exists y.
Qed.

(** C6. Two calls of the frame callback in a row with the same index,
    not a multiple of 5, leave the dot at the same position: the position
    is determined by the index and the landed positions, which such a
    frame does not change; in a scene of the animation both calls
    return. *)
Theorem flight_position_idempotent :
  (forall (fuel : nat) (f : Z) (s s1 s2 : Scene G),
      (f mod 5 <> 0)%Z ->
      animate fuel f s = Done s1 -> animate fuel f s1 = Done s2 ->
      dot s2 = dot s1 /\
      landed_y s1 = landed_y s /\ landed_y s2 = landed_y s /\
      dot s1 = match landed_y s with
               | [] => dot s
               | _ => Some (flight f (last (landed_y s) 0))
               end) /\
  (forall (fuel : nat) (f : Z) (s : Scene G),
      reachable s -> (f mod 5 <> 0)%Z ->
      exists s1 s2, animate fuel f s = Done s1 /\
                    animate fuel f s1 = Done s2 /\ dot s2 = dot s1 /\
                    dot s1 = match landed_y s with
                             | [] => None
                             | _ => Some (flight f (last (landed_y s) 0))
                             end).
Proof.
  assert (Hpair : forall (fuel : nat) (f : Z) (s s1 s2 : Scene G),
             (f mod 5 <> 0)%Z ->
             animate fuel f s = Done s1 -> animate fuel f s1 = Done s2 ->
             dot s2 = dot s1 /\
             landed_y s1 = landed_y s /\ landed_y s2 = landed_y s /\
             dot s1 = dot_after f (landed_y s) (dot s)).
  { intros fuel f s s1 s2 Hnz H1 H2.
    destruct (animate_done_shape _ _ _ _ H1) as (_ & _ & Hd1 & _).
    destruct (animate_done_shape _ _ _ _ H2) as (_ & _ & Hd2 & _).
    destruct (animate_landed _ _ _ _ H1) as [[_ Hl1] | [Hz _]];
      [| contradiction].
    destruct (animate_landed _ _ _ _ H2) as [[_ Hl2] | [Hz _]];
      [| contradiction].
    rewrite Hl1 in Hl2, Hd1. rewrite Hl2 in Hd2.
    split; [| split; [assumption | split; assumption]].
    rewrite Hd2, Hd1. unfold dot_after. now destruct (landed_y s). }
  split; [exact Hpair |].
  intros fuel f s Hreach Hnz.
  pose proof (reachable_inv s Hreach) as Hinv.
  destruct (animate_steady fuel f s Hinv Hnz) as (s1 & H1 & Hinv1 & _).
  destruct (animate_steady fuel f s1 Hinv1 Hnz) as (s2 & H2 & _).
  exists s1, s2. split; [assumption |]. split; [assumption |].
  destruct (Hpair fuel f s s1 s2 Hnz H1 H2) as (Hsame & _ & _ & Hdot).
  split; [assumption |].
  rewrite Hdot. unfold dot_after.
  pose proof (inv_dot s Hinv) as Hnone.
  destruct (landed_y s); [now apply Hnone | reflexivity].
Qed.

(** C7. On a frame between two samplings, with a particle already
    landed, the dot is drawn on the segment from the fixed start
    [(-1.5, 0)] to the landing point of the latest particle, at the
    fraction [(f mod 5) / 5] of the way: its ordinate is that fraction of
    the landed position.  In a run this holds on every such frame. *)
Theorem flight_position_interpolates :
  (forall (fuel : nat) (f : Z) (s s' : Scene G),
      (f mod 5 <> 0)%Z -> landed_y s <> [] ->
      animate fuel f s = Done s' ->
      let target := last (landed_y s) 0 in
      let t := IZR (f mod 5) / 5 in
      landed_y s' = landed_y s /\
      dot s' = Some (lerp flight_start (landing_point target) t) /\
      lerp flight_start (landing_point target) t = (-1.5 + 4 * t, t * target) /\
      0 < t < 1) /\
  (forall (fuel n : nat) (g : G) (s : Scene G),
      (Z.of_nat n mod 5 <> 0)%Z -> run fuel (S n) g = Done s ->
      let target := last (landed_y s) 0 in
      let t := IZR (Z.of_nat n mod 5) / 5 in
      dot s = Some (lerp flight_start (landing_point target) t)).
Proof.
  split.
  - intros fuel f s s' Hnz Hne Hdone target t.
    destruct (animate_done_shape _ _ _ _ Hdone) as (_ & _ & Hdot & _).
    destruct (animate_landed _ _ _ _ Hdone) as [[_ Hl] | [Hz _]];
      [| contradiction].
    split; [assumption |].
    rewrite Hl, dot_after_landed, flight_lerp in Hdot by assumption.
    split; [exact Hdot |].
    split; [| now apply sub_frame_fraction].
    unfold lerp, flight_start, landing_point. cbn [fst snd]. f_equal; lra.
  - intros fuel n g s Hnz Hrun target t.
    destruct (run_has_target fuel n g s Hrun) as (_ & Hne & Hdot).
    rewrite Hdot. now rewrite flight_lerp.
Qed.

End Claims.

Lemma sampler_accepts_centre_at_once :
  fst (uniform (-1) 1 [1%nat; 0%nat]) = 0 /\
  fst (random (snd (uniform (-1) 1 [1%nat; 0%nat]))) = 0 /\
  rejection_loop 1 [1%nat; 0%nat] = Done (0, [1%nat; 0%nat]).
Proof.
  assert (Hy : fst (uniform (-1) 1 [1%nat; 0%nat]) = 0).
  { unfold uniform. cbn [random_sample TapeRandom tape_next app fst].
    rewrite tape_value_1. lra. }
  assert (Hu : fst (random (snd (uniform (-1) 1 [1%nat; 0%nat]))) = 0).
  { unfold uniform, random.
    cbn [random_sample TapeRandom tape_next app fst snd].
    exact tape_value_0. }
  split; [exact Hy | split; [exact Hu |]].
  exact (proj2 (proj2 (proj2 (proj2 (proj2 (proj2
           (sampler_returns_first_accepted (G := list nat))))))
           [1%nat; 0%nat] Hy Hu)).
Defined.

Lemma ten_particles_after_fifty_frames :
  exists s, run 1 50 [1%nat] = Done s /\ length (landed_y s) = 10%nat.
Proof.
  destruct (half_tape_run 50) as (s & Hrun).
  exists s. split; [exact Hrun |].
  exact (proj2 (proj2 (proj2 (proj2 (proj2 (proj2
           (particle_count_follows_cadence (G := list nat))))))) 1%nat _ s Hrun).
Defined.

Lemma heights_after_first_frame :
  exists s : Scene (list nat),
    run 1 1 [1%nat] = Done s /\ landed_y s <> [] /\
    Forall (fun h => 0 <= h <= 1) (bars s) /\
    Exists (fun h => h = 1) (bars s).
Proof.
  destruct (half_tape_run 1) as (s & Hrun).
  pose proof (run_reachable _ _ _ _ Hrun) as Hreach.
  destruct (run_has_target _ _ _ _ Hrun) as (_ & Hne & _).
  destruct (histogram_heights_normalized s Hreach) as (_ & Hall & Hone & _).
  exists s. split; [exact Hrun |]. split; [exact Hne |].
  split; [exact Hall | exact (proj1 (Hone Hne))].
Defined.

Lemma one_late_acceptance :
  rejection_loop 1 [0; 1; 1; 0]%nat = OutOfFuel /\
  rejection_loop 2 [0; 1; 1; 0]%nat =
  Done (candidate 1 [0; 1; 1; 0]%nat, passes 2 [0; 1; 1; 0]%nat).
Proof.
  destruct late_tape_passes as (Hy0 & Hu0 & Hy1 & Hu1).
  assert (Hrej : forall i, (i < 1)%nat ->
             ~ threshold i [0; 1; 1; 0]%nat
               < prob (candidate i [0; 1; 1; 0]%nat)).
  { intros i Hi. replace i with 0%nat by lia.
    rewrite Hy0, Hu0, intensity_minus_1. lra. }
  destruct (proj1 (proj2 (sampler_never_gives_up (G := list nat)))
              1%nat [0; 1; 1; 0]%nat Hrej) as [Hwait Hdone].
  split; [apply Hwait; lia |].
  apply Hdone; [| lia].
  rewrite Hy1, Hu1, intensity_0. lra.
Defined.

(** The retry cap of C5 is not in the code: after more rejected candidates
    than the suggested cap (the edge [-1] against the threshold 1/2, more
    than 10000 times) the sampler has not failed, and it returns the next
    candidate, which the frame appends; on a tape that is always rejected
    the frame never returns. *)
Lemma no_retry_cap_in_sampler :
  rejection_loop (S suggested_retry_cap) stubborn_tape = OutOfFuel /\
  rejection_loop (S (S suggested_retry_cap)) stubborn_tape =
    Done (0, stubborn_tape) /\
  (exists s', animate (S (S suggested_retry_cap)) 0 (fresh stubborn_tape)
              = Done s' /\ landed_y s' = [0]) /\
  (forall fuel, animate fuel 0 (fresh [0%nat; 1%nat]) = OutOfFuel).
Proof.
  split; [exact stubborn_tape_rejecting |].
  split; [exact stubborn_tape_accepting |].
  split.
  - destruct (animate_sampling (S (S suggested_retry_cap)) 0
                (fresh stubborn_tape) 0 stubborn_tape)
      as (s' & Hdone & _ & Hl & _);
      [apply fresh_inv | reflexivity | exact stubborn_tape_accepting |].
    now exists s'.
  - intros fuel. apply animate_waiting; [reflexivity |].
    apply edge_tape_loop.
Qed.

Lemma same_frame_twice_after_landing :
  exists s s1 s2 : Scene (list nat),
    run 1 1 [1%nat] = Done s /\ landed_y s <> [] /\
    animate 1 1 s = Done s1 /\ animate 1 1 s1 = Done s2 /\
    dot s2 = dot s1.
Proof.
  destruct (half_tape_run 1) as (s & Hrun).
  pose proof (run_reachable _ _ _ _ Hrun) as Hreach.
  destruct (run_has_target _ _ _ _ Hrun) as (_ & Hne & _).
  assert (Hnz : (1 mod 5 <> 0)%Z) by discriminate.
  destruct (proj2 (flight_position_idempotent (G := list nat)) 1%nat 1%Z s
              Hreach Hnz) as (s1 & s2 & H1 & H2 & Hdot & _).
  exists s, s1, s2. repeat (split; [assumption |]). assumption.
Defined.

Lemma dot_one_fifth_of_the_way :
  exists s s' : Scene (list nat),
    run 1 1 [1%nat] = Done s /\ animate 1 1 s = Done s' /\
    dot s' = Some (lerp flight_start (landing_point (last (landed_y s) 0))
                        (IZR (1 mod 5) / 5)).
Proof.
  destruct (half_tape_run 1) as (s & Hrun).
  pose proof (run_reachable _ _ _ _ Hrun) as Hreach.
  destruct (run_has_target _ _ _ _ Hrun) as (_ & Hne & _).
  assert (Hnz : (1 mod 5 <> 0)%Z) by discriminate.
  destruct (animate_steady 1 1 s (reachable_inv s Hreach) Hnz)
    as (s' & Hdone & _).
  exists s, s'. split; [exact Hrun |]. split; [exact Hdone |].
  exact (proj1 (proj2 (proj1 (flight_position_interpolates (G := list nat))
                         1%nat 1%Z s s' Hnz Hne Hdone))).
Defined.

Lemma first_particle_fills_a_bin :
  exists (s : Scene (list nat)) (hist : list nat) (m : nat),
    run 1 1 [1%nat] = Done s /\ landed_y s <> [] /\
    np.histogram (landed_y s) (bins s) = Done hist /\
    py_max hist = Done m /\ (1 <= m)%nat.
Proof.
  destruct (half_tape_run 1) as (s & Hrun).
  pose proof (run_reachable _ _ _ _ Hrun) as Hreach.
  destruct (run_has_target _ _ _ _ Hrun) as (_ & Hne & _).
  destruct (landed_positions_fill_a_bin s Hreach) as (_ & Hfill).
  destruct (Hfill Hne) as (hist & m & Hhist & _ & Hmax & Hm & _).
  exists s, hist, m.
  split; [exact Hrun |]. split; [exact Hne |].
  split; [exact Hhist |]. split; [exact Hmax | exact Hm].
Defined.

Lemma two_particles_after_eight_frames :
  exists s : Scene (list nat),
    run 1 8 [1%nat] = Done s /\
    length (landed_y s) = 2%nat /\ dot s <> None.
Proof.
  destruct (half_tape_run 8) as (s & Hrun).
  destruct (proj2 (every_frame_has_a_particle_in_flight (G := list nat))
              1%nat 7%nat [1%nat] s Hrun) as (Hlen & _ & _ & Hdot).
  exists s. split; [exact Hrun |]. split; [exact Hlen | exact Hdot].
Defined.

(** * More about the double slit *)

Lemma count_cons (p : R -> bool) (x : R) (a : list R) :
  np.count p (x :: a) = ((if p x then 1 else 0) + np.count p a)%nat.
Proof. unfold np.count. cbn [filter]. now destruct (p x). Qed.

Lemma count_split (p q r : R -> bool) (a : list R) :
  (forall x, ((if r x then 1 else 0) =
              (if p x then 1 else 0) + (if q x then 1 else 0))%nat) ->
  (np.count p a + np.count q a = np.count r a)%nat.
Proof.
  intros Hsplit. induction a as [| x a IH]; [reflexivity |].
  rewrite !count_cons, Hsplit. lia.
Qed.

Lemma count_all (p : R -> bool) (a : list R) :
  Forall (fun x => p x = true) a -> np.count p a = length a.
Proof.
  induction 1 as [| x a Hx _ IH]; [reflexivity |].
  rewrite count_cons, Hx, IH. reflexivity.
Qed.

Lemma monotonic_tail (lo : R) (rest : list R) :
  np.monotonic (lo :: rest) = true -> np.monotonic rest = true.
Proof.
  destruct rest as [| hi more]; [reflexivity |].
  cbn [np.monotonic]. destruct (Rlt_dec hi lo); [discriminate | auto].
Qed.

Lemma monotonic_first_le_last (rest : list R) :
  forall lo d, rest <> [] -> np.monotonic (lo :: rest) = true ->
               lo <= last rest d.
Proof.
  induction rest as [| hi more IH]; intros lo d Hne Hmono; [contradiction |].
  assert (Hle : lo <= hi).
  { cbn [np.monotonic] in Hmono. destruct (Rlt_dec hi lo); [discriminate | lra]. }
  destruct more as [| m more]; [exact Hle |].
  apply monotonic_tail in Hmono.
  specialize (IH hi d ltac:(discriminate) Hmono).
  change (last (hi :: m :: more) d) with (last (m :: more) d). lra.
Qed.

(** Over increasing edges the bins partition the closed range: the counts
    add up to the number of values between the first and the last edge. *)
Lemma bin_counts_total (a rest : list R) :
  forall lo d, rest <> [] -> np.monotonic (lo :: rest) = true ->
    list_sum (np.bin_counts a (lo :: rest)) =
    np.count (fun x => Rleb lo x && Rleb x (last rest d)) a.
Proof.
  induction rest as [| hi more IH]; intros lo d Hne Hmono; [contradiction |].
  destruct more as [| m more].
  - cbn [np.bin_counts last].
    change (list_sum [np.count (np.in_bin lo hi true) a])
      with (np.count (np.in_bin lo hi true) a + 0)%nat.
    now rewrite Nat.add_0_r.
  - change (list_sum (np.bin_counts a (lo :: hi :: m :: more)))
      with (np.count (np.in_bin lo hi false) a
            + list_sum (np.bin_counts a (hi :: m :: more)))%nat.
    assert (Hle : lo <= hi).
    { cbn [np.monotonic] in Hmono.
      destruct (Rlt_dec hi lo); [discriminate | lra]. }
    apply monotonic_tail in Hmono.
    pose proof (monotonic_first_le_last (m :: more) hi d
                  ltac:(discriminate) Hmono) as Hlast.
    rewrite (IH hi d ltac:(discriminate) Hmono).
    change (last (hi :: m :: more) d) with (last (m :: more) d).
    apply count_split. intros x. unfold np.in_bin, Rleb, Rltb.
    destruct (Rle_dec lo x), (Rlt_dec x hi), (Rle_dec hi x),
      (Rle_dec x (last (m :: more) d)); cbn; try reflexivity; lra.
Qed.

Lemma edges_total (a : list R) :
  Forall in_domain a -> list_sum (np.bin_counts a edges) = length a.
Proof.
  intros Hdom.
  pose proof edges_first as Hf. pose proof edges_last as Hl.
  pose proof edges_length as Hlen. pose proof edges_monotonic as Hmono.
  destruct edges as [| lo rest]; [discriminate |].
  destruct rest as [| hi more]; [discriminate |].
  cbn [hd] in Hf. subst lo.
  change (last (-1 :: hi :: more) 0) with (last (hi :: more) 0) in Hl.
  rewrite (bin_counts_total a (hi :: more) (-1) 0 ltac:(discriminate) Hmono).
  rewrite Hl. apply count_all.
  eapply Forall_impl; [| exact Hdom].
  intros x [Hlo Hhi]. apply andb_true_intro. split; now apply Rleb_true.
Qed.

Lemma flight_bounds (f : Z) (target : R) :
  -1 <= target <= 1 ->
  -1.5 <= fst (flight f target) < 2.5 /\
  -1 < snd (flight f target) < 1.
Proof.
  intros [Hlo Hhi].
  assert (Hsub : (0 <= f mod 5 <= 4)%Z)
    by (pose proof (Z.mod_pos_bound f 5); lia).
  destruct Hsub as [H0 H4]. apply IZR_le in H0, H4.
  unfold flight. cbn [fst snd].
  set (prog := IZR (f mod 5) / 5).
  assert (Hprog : 0 <= prog <= 0.8) by (unfold prog; lra).
  assert (Hup : 0 <= (1 - target) * prog) by (apply Rmult_le_pos; lra).
  assert (Hdown : 0 <= (1 + target) * prog) by (apply Rmult_le_pos; lra).
  split; lra.
Qed.

Section MoreDoubleSlit.

Context {G : Type} `{RandomState G}.

(** X2. Frames only append: after [n] frames from any scene the earlier
    landed positions are still there, in order, followed by one new
    position for each multiple of 5 below [n]; restarting at frame 0 on a
    scene that already holds particles clears nothing. *)
Theorem landed_positions_only_grow :
  forall (fuel n : nat) (s s' : Scene G),
    frames fuel n s = Done s' ->
    exists added,
      landed_y s' = landed_y s ++ added /\
      length added = ((n + 4) / 5)%nat.
Proof.
  intros fuel n s. induction n as [| k IH]; intros s'.
  - intros [= <-]. exists []. now rewrite app_nil_r.
  - intros Hdone. destruct (frames_S_done _ _ _ _ Hdone) as (s1 & Hk & Hlast).
    destruct (IH _ Hk) as (added & Hl & Hlen).
    destruct (animate_landed _ _ _ _ Hlast)
      as [[Hnz ->] | [Hz (y & g1 & _ & ->)]].
    + exists added. split; [assumption |]. rewrite Hlen. div_lia.
    + exists (added ++ [y]). rewrite Hl, app_assoc.
      split; [reflexivity |]. rewrite length_app, Hlen. cbn [length]. div_lia.
Qed.

(** X4. The histogram loses no particle: in every scene of the animation
    the 29 bin counts of the landed positions add up to their number. *)
Theorem histogram_counts_every_particle :
  forall s : Scene G,
    reachable s ->
    exists hist,
      np.histogram (landed_y s) (bins s) = Done hist /\
      list_sum hist = length (landed_y s).
Proof.
  intros s Hreach. destruct (reachable_inv s Hreach) as [Hbins Hdom _ _].
  exists (np.bin_counts (landed_y s) edges).
  rewrite Hbins, histogram_edges. split; [reflexivity |].
  now apply edges_total.
Qed.

(** X6. The dot stays in the top-down view and short of the detector
    line [x = 2.5]: in every scene of the animation its abscissa is at
    least -1.5 and below 2.5 and its ordinate strictly between -1 and 1;
    a sampling frame puts it back at the start [(-1.5, 0)]. *)
Theorem dot_stays_before_the_screen :
  (forall s : Scene G,
      reachable s ->
      forall p, dot s = Some p ->
                -1.5 <= fst p < 2.5 /\ -1 < snd p < 1) /\
  (forall (fuel : nat) (f : Z) (s s' : Scene G),
      (f mod 5 = 0)%Z -> animate fuel f s = Done s' ->
      dot s' = Some (-1.5, 0)).
Proof.
  split.
  - induction 1 as [g s Hsetup | fuel f s s' Hreach IH Hdone]; intros p Hp.
    + unfold show_doubleslit in Hsetup. injection Hsetup as <-.
      discriminate.
    + assert (Hinv : scene_inv s').
      { eapply animate_inv; [apply reachable_inv |]; eassumption. }
      destruct (animate_done_shape _ _ _ _ Hdone) as (_ & _ & Hdot & _).
      rewrite Hdot in Hp. unfold dot_after in Hp.
      destruct (landed_y s') as [| y l] eqn:Hl; [now apply IH |].
      injection Hp as <-.
      assert (Hin : In (last (y :: l) 0) (y :: l)).
      { destruct (exists_last (l := y :: l) ltac:(discriminate))
          as (l' & z & ->).
        rewrite last_last. apply in_or_app. right. now left. }
      pose proof (inv_landed s' Hinv) as Hdom. rewrite Hl in Hdom.
      rewrite Forall_forall in Hdom. destruct (Hdom _ Hin) as [Hlo Hhi].
      apply flight_bounds. split; assumption.
  - intros fuel f s s' Hz Hdone.
    destruct (animate_done_shape _ _ _ _ Hdone) as (_ & _ & Hdot & _).
    destruct (animate_landed _ _ _ _ Hdone)
      as [[Hnz _] | [_ (y & g1 & _ & Hl)]]; [contradiction |].
    rewrite Hdot, Hl. unfold dot_after.
    destruct (landed_y s ++ [y]) eqn:Happ;
      [now apply app_eq_nil in Happ |].
    unfold flight. rewrite Hz. f_equal. f_equal; lra.
Qed.

(** X25. Nothing raises during the animation.  The 30 edges run from -1
    to 1 without decreasing, so [np.histogram] accepts them; every scene
    of the animation keeps these edges and 29 bars, so [max] always gets
    29 counts; hence no frame callback raises, whatever the frame index,
    and neither does a sequence of frames from the scene that the set-up
    hands over. *)
Theorem no_frame_raises :
  (length edges = 30%nat /\ np.monotonic edges = true /\
   hd 0 edges = -1 /\ last edges 0 = 1) /\
  (forall s : Scene G,
      reachable s ->
      bins s = edges /\ length (bars s) = 29%nat /\
      forall (fuel : nat) (f : Z) (e : exn), animate fuel f s <> Raise e) /\
  (forall (fuel n : nat) (g : G) (e : exn),
      frames fuel n (fresh g) <> Raise e).
Proof.
  split.
  { split; [exact edges_length |]. split; [exact edges_monotonic |].
    split; [exact edges_first | exact edges_last]. }
  split.
  - intros s Hreach. pose proof (reachable_inv s Hreach) as Hinv.
    split; [apply Hinv |].
    split; [eapply bars_of_length; apply Hinv |].
    intros fuel f e. now apply animate_no_raise.
  - intros fuel n g e. apply frames_no_raise, fresh_inv.
Qed.

End MoreDoubleSlit.

(** X5. The pattern is symmetric about the centre: a position and its
    mirror image have the same intensity. *)
Theorem pattern_is_symmetric :
  forall y : R, prob (- y) = prob y.
Proof.
  intros y. unfold prob.
  replace (10 * - y) with (- (10 * y)) by ring.
  replace (2 * - y) with (- (2 * y)) by ring.
  rewrite cos_neg. f_equal.
  destruct (Req_dec_T y 0) as [-> | Hy].
  - now replace (- (2 * 0)) with (2 * 0) by ring.
  - rewrite !sinc_nonzero by lra.
    replace (PI * - (2 * y)) with (- (PI * (2 * y))) by ring.
    rewrite sin_neg. pose proof PI_RGT_0. field. nra.
Qed.

(** * Facts about [np.linspace] *)

Lemma linspace_length (a b : R) (n : nat) : length (np.linspace a b n) = n.
Proof. unfold np.linspace. now rewrite length_map, length_seq. Qed.

Lemma linspace_nth (a b : R) (n i : nat) (d : R) :
  (i < n)%nat ->
  nth i (np.linspace a b n) d = a + INR i * ((b - a) / INR (n - 1)).
Proof.
  intros Hi. unfold np.linspace.
  set (f := fun k : nat => a + INR k * ((b - a) / INR (n - 1))).
  rewrite (nth_indep _ d (f 0%nat)) by now rewrite length_map, length_seq.
  rewrite map_nth, seq_nth by assumption. reflexivity.
Qed.

Lemma linspace_first (a b : R) (n : nat) (d : R) :
  hd d (np.linspace a b (S n)) = a.
Proof. unfold np.linspace. cbn [seq map hd INR]. lra. Qed.

Lemma linspace_last (a b : R) (n : nat) (d : R) :
  last (np.linspace a b (S (S n))) d = b.
Proof.
  unfold np.linspace. rewrite last_map_seq. cbn [Nat.sub].
  assert (0 < INR (S n)) by (apply lt_0_INR; lia).
  field. lra.
Qed.

Lemma linspace_between (a b : R) (n : nat) :
  a <= b -> Forall (fun x => a <= x <= b) (np.linspace a b n).
Proof.
  intros Hab. unfold np.linspace. apply Forall_map, Forall_forall.
  intros i Hi. apply in_seq in Hi. cbn beta.
  destruct n as [| [| n]]; [lia | |].
  - replace i with 0%nat by lia. cbn [INR]. lra.
  - cbn [Nat.sub]. assert (Hn : 0 < INR (S n)) by (apply lt_0_INR; lia).
    assert (Hi' : 0 <= INR i <= INR (S n)).
    { split; [apply pos_INR | apply le_INR; lia]. }
    assert (Hq : 0 <= INR i / INR (S n) <= 1).
    { split.
      - apply Rmult_le_reg_r with (INR (S n)); [assumption |].
        unfold Rdiv. rewrite Rmult_assoc, Rinv_l by lra. lra.
      - apply Rmult_le_reg_r with (INR (S n)); [assumption |].
        unfold Rdiv. rewrite Rmult_assoc, Rinv_l by lra. lra. }
    replace (INR i * ((b - a) / INR (S n)))
      with ((b - a) * (INR i / INR (S n))) by (field; lra).
    split; nra.
Qed.

(** * Gravitational lensing *)

Lemma last_map_nonempty {A B : Type} (f : A -> B) (l : list A) (d : A) (d' : B) :
  l <> [] -> last (map f l) d' = f (last l d).
Proof.
  induction l as [| x [| y l] IH]; [contradiction | reflexivity |].
  intros _. change (last (map f (y :: l)) d' = f (last (y :: l) d)).
  apply IH. discriminate.
Qed.

Lemma hd_map_nonempty {A B : Type} (f : A -> B) (l : list A) (d : A) (d' : B) :
  l <> [] -> hd d' (map f l) = f (hd d l).
Proof. destruct l; [contradiction | reflexivity]. Qed.

Lemma linspace_nonempty (a b : R) (n : nat) : np.linspace a b (S n) <> [].
Proof.
  intros Heq. pose proof (linspace_length a b (S n)) as Hlen.
  rewrite Heq in Hlen. discriminate.
Qed.

Lemma beam_samples (frame : Z) :
  (0 <= frame <= 50)%Z ->
  let tp := np.linspace 0 (IZR frame / 50) (Z.to_nat (frame + 1)) in
  tp <> [] /\ hd 0 tp = 0 /\ last tp 0 = IZR frame / 50 /\
  Forall (fun t => 0 <= t <= 1) tp.
Proof.
  intros [Hlo Hhi] tp. subst tp.
  assert (Hf : 0 <= IZR frame <= 50) by (split; now apply IZR_le).
  destruct (Z.to_nat (frame + 1)) as [| [| n]] eqn:Hn; [lia | |].
  - assert (frame = 0%Z) by lia. subst frame.
    split; [apply linspace_nonempty |].
    unfold np.linspace. cbn [seq map hd last INR Nat.sub].
    split; [lra |]. split; [lra |]. constructor; [lra | constructor].
  - split; [apply linspace_nonempty |].
    rewrite linspace_first, linspace_last.
    split; [reflexivity |]. split; [reflexivity |].
    eapply Forall_impl; [| apply linspace_between; lra].
    cbn beta. intros t Ht. lra.
Qed.

(** X7. While the light travels (frames 0 to 50) the two beams have
    [frame + 1] points, start at the star [(8, 0)] and end at the point of
    the path for [t = frame / 50], whose abscissa at frame 50 is the
    Earth's, -8; the lower beam is the mirror image of the upper one. *)
Theorem lensing_beam_travels_from_star_to_earth :
  forall (frame : Z) (s : lensing.Scene),
    (0 <= frame <= 50)%Z ->
    exists s',
      lensing.animate frame s = Done s' /\
      length (fst (lensing.beam_top s')) = Z.to_nat (frame + 1) /\
      length (snd (lensing.beam_top s')) = Z.to_nat (frame + 1) /\
      hd 0 (fst (lensing.beam_top s')) = 8 /\
      hd 0 (snd (lensing.beam_top s')) = 0 /\
      last (fst (lensing.beam_top s')) 0 = 8 * (1 - 2 * (IZR frame / 50)) /\
      last (snd (lensing.beam_top s')) 0 = 2.5 * sin (IZR frame / 50 * PI) /\
      fst (lensing.beam_bottom s') = fst (lensing.beam_top s') /\
      snd (lensing.beam_bottom s') = map Ropp (snd (lensing.beam_top s')) /\
      (frame = 50%Z -> last (fst (lensing.beam_top s')) 0 = -8).
Proof.
  intros frame s Hframe.
  destruct (beam_samples frame Hframe) as (Hne & Hhd & Hlast & _).
  unfold lensing.animate.
  destruct (Z.leb_spec frame 50) as [_ | Hgt]; [| lia].
  destruct (Z.ltb_spec (frame + 1) 0) as [Hneg | _]; [lia |].
  eexists. split; [reflexivity |].
  cbn [lensing.beam_top lensing.beam_bottom lensing.get_path fst snd].
  set (tp := np.linspace 0 (IZR frame / 50) (Z.to_nat (frame + 1))) in *.
  rewrite !length_map.
  rewrite !(hd_map_nonempty _ tp 0 0 Hne), !(last_map_nonempty _ tp 0 0 Hne).
  rewrite Hhd, Hlast, Rmult_0_l, sin_0.
  split; [apply linspace_length |]. split; [apply linspace_length |].
  split; [lra |]. split; [lra |]. split; [reflexivity |]. split; [lra |].
  split; [reflexivity |].
  split.
  - rewrite map_map. apply map_ext. intros t. lra.
  - intros ->. lra.
Qed.

Lemma lensing_travel_frame (frame : Z) (s s' : lensing.Scene) :
  (0 <= frame <= 50)%Z -> lensing.animate frame s = Done s' ->
  let tp := np.linspace 0 (IZR frame / 50) (Z.to_nat (frame + 1)) in
  lensing.beam_top s' = lensing.get_path tp 1 /\
  lensing.beam_bottom s' = lensing.get_path tp (-1).
Proof.
  intros Hframe. unfold lensing.animate.
  destruct (Z.leb_spec frame 50) as [_ | Hgt]; [| lia].
  destruct (Z.ltb_spec (frame + 1) 0) as [Hneg | _]; [lia |].
  intros [= <-]. split; reflexivity.
Qed.

(** X8. The beams pass around the lens: on frames 0 to 50 every point of
    a beam has its abscissa between the Earth and the star, the upper beam
    stays on or above the axis and the lower one on or below it, neither
    further than 2.5 from it. *)
Theorem lensing_beams_pass_around_the_lens :
  forall (frame : Z) (s s' : lensing.Scene),
    (0 <= frame <= 50)%Z -> lensing.animate frame s = Done s' ->
    Forall (fun x => -8 <= x <= 8) (fst (lensing.beam_top s')) /\
    Forall (fun y => 0 <= y <= 2.5) (snd (lensing.beam_top s')) /\
    Forall (fun y => -2.5 <= y <= 0) (snd (lensing.beam_bottom s')).
Proof.
  intros frame s s' Hframe Hdone.
  destruct (lensing_travel_frame frame s s' Hframe Hdone) as [-> ->].
  destruct (beam_samples frame Hframe) as (_ & _ & _ & Hall).
  assert (Hsin : forall t, 0 <= t <= 1 -> 0 <= sin (t * PI) <= 1).
  { intros t [H0 H1]. pose proof PI_RGT_0. split.
    - apply sin_ge_0; nra.
    - apply SIN_bound. }
  cbn [lensing.get_path fst snd].
  split; [| split]; apply Forall_map;
    (eapply Forall_impl; [| exact Hall]); cbn beta; intros t Ht;
    try (specialize (Hsin t Ht)); lra.
Qed.

(** X9. After the light has arrived (frames above 50) the two dashed
    lines have 10 points, start at the Earth and end at
    [(-8 + 16 p, 5 p)] and [(-8 + 16 p, -5 p)] for
    [p = min 1 ((frame - 50) / 30)], which is 1 from frame 80 on; the two
    apparent images are left as they were up to frame 53 and, from frame
    54 on, are shown opaque at the ends of the dashed lines with the
    caption set.  The beams are not touched. *)
Theorem lensing_images_appear_at_frame_54 :
  forall (frame : Z) (s : lensing.Scene),
    (50 < frame)%Z ->
    exists s' p,
      lensing.animate frame s = Done s' /\
      p = Rmin 1 (IZR (frame - 50) / 30) /\ 0 < p <= 1 /\
      ((80 <= frame)%Z -> p = 1) /\
      lensing.beam_top s' = lensing.beam_top s /\
      lensing.beam_bottom s' = lensing.beam_bottom s /\
      length (fst (lensing.app_top s')) = 10%nat /\
      length (snd (lensing.app_top s')) = 10%nat /\
      fst (lensing.app_bot s') = fst (lensing.app_top s') /\
      length (snd (lensing.app_bot s')) = 10%nat /\
      (hd 0 (fst (lensing.app_top s')), hd 0 (snd (lensing.app_top s')))
        = (-8, 0) /\
      (hd 0 (fst (lensing.app_bot s')), hd 0 (snd (lensing.app_bot s')))
        = (-8, 0) /\
      (last (fst (lensing.app_top s')) 0, last (snd (lensing.app_top s')) 0)
        = (-8 + 16 * p, 5 * p) /\
      (last (fst (lensing.app_bot s')) 0, last (snd (lensing.app_bot s')) 0)
        = (-8 + 16 * p, -5 * p) /\
      ((54 <= frame)%Z ->
       lensing.img_top s' = (-8 + 16 * p, 5 * p) /\
       lensing.img_bot s' = (-8 + 16 * p, -5 * p) /\
       lensing.img_top_alpha s' = 1 /\ lensing.img_bot_alpha s' = 1 /\
       lensing.txt s' <> String.EmptyString) /\
      ((frame < 54)%Z ->
       lensing.img_top s' = lensing.img_top s /\
       lensing.img_bot s' = lensing.img_bot s /\
       lensing.img_top_alpha s' = lensing.img_top_alpha s /\
       lensing.img_bot_alpha s' = lensing.img_bot_alpha s /\
       lensing.txt s' = lensing.txt s).
Proof.
  intros frame s Hframe.
  set (p := Rmin 1 (IZR (frame - 50) / 30)).
  assert (Hq : 1 <= IZR (frame - 50)) by (apply IZR_le; lia).
  assert (Hp : 0 < p <= 1).
  { unfold p, Rmin. destruct (Rle_dec 1 (IZR (frame - 50) / 30)); lra. }
  assert (Hsat : (80 <= frame)%Z -> p = 1).
  { intros H80. assert (30 <= IZR (frame - 50)) by (apply IZR_le; lia).
    unfold p, Rmin. destruct (Rle_dec 1 (IZR (frame - 50) / 30)); lra. }
  assert (Hlate : (54 <= frame)%Z -> Rltb 0.1 p = true).
  { intros H54. assert (4 <= IZR (frame - 50)) by (apply IZR_le; lia).
    apply Rltb_true. unfold p, Rmin.
    destruct (Rle_dec 1 (IZR (frame - 50) / 30)); lra. }
  assert (Hearly : (frame < 54)%Z -> Rltb 0.1 p = false).
  { intros H54. assert (IZR (frame - 50) <= 3) by (apply IZR_le; lia).
    apply Rltb_false. unfold p, Rmin.
    destruct (Rle_dec 1 (IZR (frame - 50) / 30)); lra. }
  unfold lensing.animate.
  destruct (Z.leb_spec frame 50) as [Hle | _]; [lia |].
  fold p.
  assert (Hends :
    forall b, (hd 0 (np.linspace (-8) (-8 + 16 * p) 10),
               hd 0 (np.linspace 0 b 10)) = (-8, 0) /\
              (last (np.linspace (-8) (-8 + 16 * p) 10) 0,
               last (np.linspace 0 b 10) 0) = (-8 + 16 * p, b)).
  { intros b. now rewrite !linspace_first, !linspace_last. }
  destruct (Rltb 0.1 p) eqn:Hshow; eexists; exists p;
    (split; [reflexivity |]);
    cbn [lensing.beam_top lensing.beam_bottom lensing.app_top lensing.app_bot
         lensing.img_top lensing.img_bot lensing.img_top_alpha
         lensing.img_bot_alpha lensing.txt fst snd];
    rewrite !linspace_length;
    (split; [reflexivity |]); (split; [exact Hp |]); (split; [exact Hsat |]);
    do 6 (split; [reflexivity |]);
    (split; [apply Hends |]); (split; [apply Hends |]);
    (split; [apply Hends |]); (split; [apply Hends |]).
  - split.
    + intros _. repeat (split; [reflexivity |]).
      intros Heq. discriminate Heq.
    + intros H54. pose proof (Hearly H54). congruence.
  - split.
    + intros H54. pose proof (Hlate H54). congruence.
    + intros _. repeat split; reflexivity.
Qed.

(** * Michelson interferometer *)

Lemma Rgrid_shape :
  length interferometer.Rgrid = 100%nat /\
  Forall (fun row => length row = 100%nat) interferometer.Rgrid.
Proof.
  unfold interferometer.Rgrid.
  assert (Hx : length interferometer.x = 100%nat) by apply linspace_length.
  split; [now rewrite length_map |].
  apply Forall_map, Forall_forall. intros yi _. now rewrite length_map.
Qed.

(** X10. On every frame the moving mirror is between 4 and 5.6, the beam
    towards it ends on it and the returning beam starts on it, and the
    detector image keeps its 100 x 100 shape with every pixel in the
    colour range [0, 1]. *)
Theorem interferometer_frame_is_well_formed :
  forall frame : Z,
    4 <= interferometer.mirror_move (interferometer.animate frame) <= 5.6 /\
    length (interferometer.beams (interferometer.animate frame)) = 6%nat /\
    nth 2 (interferometer.beams (interferometer.animate frame)) ([], [])
      = ([0; interferometer.mirror_move (interferometer.animate frame)],
         [0; 0]) /\
    nth 4 (interferometer.beams (interferometer.animate frame)) ([], [])
      = ([interferometer.mirror_move (interferometer.animate frame); 0],
         [0; 0]) /\
    length (interferometer.img (interferometer.animate frame)) = 100%nat /\
    Forall (fun row => length row = 100%nat /\
                       Forall (fun z => 0 <= z <= 1) row)
           (interferometer.img (interferometer.animate frame)).
Proof.
  intros frame. destruct Rgrid_shape as [Hrows Hcols].
  unfold interferometer.animate.
  cbn [interferometer.mirror_move interferometer.beams interferometer.img
       nth length].
  split.
  { unfold interferometer.mx. pose proof (SIN_bound (IZR frame * 0.1)). lra. }
  split; [reflexivity |]. split; [reflexivity |]. split; [reflexivity |].
  split; [now rewrite length_map |].
  apply Forall_map. eapply Forall_impl; [| exact Hcols].
  cbn beta. intros row Hrow. split; [now rewrite length_map |].
  apply Forall_map, Forall_forall. intros r _.
  unfold interferometer.fringe. apply cos_sqr_bounds.
Qed.

(** * Coupled pendulums *)

Lemma pendulum_t_length : length pendulum.t = 200%nat.
Proof. apply linspace_length. Qed.

Lemma pendulum_animate_some (i : Z) (panels : list pendulum.Panel) :
  pendulum.animate i = Some panels ->
  exists ti, pendulum.item pendulum.t i = Some ti /\
             panels = map (fun ab => pendulum.place (fst ab) (snd ab))
                          (pendulum.all_coords ti).
Proof.
  unfold pendulum.animate.
  destruct (pendulum.item pendulum.t i) as [ti |]; [| discriminate].
  intros [= <-]. now exists ti.
Qed.

Lemma pendulum_item_nonneg (i : Z) :
  (0 <= i < 200)%Z ->
  pendulum.item pendulum.t i = Some (nth (Z.to_nat i) pendulum.t 0).
Proof.
  intros Hi. unfold pendulum.item. rewrite pendulum_t_length.
  destruct (Z.leb_spec 0 i); [| lia].
  destruct (Z.ltb_spec i (Z.of_nat 200)); [| lia]. cbn [andb].
  apply nth_error_nth'. rewrite pendulum_t_length. lia.
Qed.

Lemma pendulum_item_wrap (i : Z) :
  (-200 <= i < 0)%Z ->
  pendulum.item pendulum.t i = pendulum.item pendulum.t (i + 200).
Proof.
  intros Hi. unfold pendulum.item. rewrite pendulum_t_length.
  destruct (Z.leb_spec 0 i); [lia |]. cbn [andb].
  destruct (Z.leb_spec (- Z.of_nat 200) i); [| lia].
  destruct (Z.ltb_spec i 0); [| lia]. cbn [andb].
  destruct (Z.leb_spec 0 (i + 200)); [| lia].
  destruct (Z.ltb_spec (i + 200) (Z.of_nat 200)); [| lia]. cbn [andb].
  f_equal. lia.
Qed.

Lemma pendulum_first_frame :
  exists panels, pendulum.animate 0 = Some panels.
Proof.
  unfold pendulum.animate. rewrite (pendulum_item_nonneg 0) by lia.
  eexists. reflexivity.
Qed.

(** X12. The frame index of the pendulums is an index into the 200 time
    samples: the frames -200 .. 199 give three panels, a negative index
    counting from the end, and any other index fails; the samples run
    from the time 0, at frame 0, to the time 20, at frame 199. *)
Theorem pendulum_frames_index_the_time_samples :
  (forall i : Z, (-200 <= i < 200)%Z ->
     exists panels, pendulum.animate i = Some panels /\
                    length panels = 3%nat) /\
  (forall i : Z, (i < -200 \/ 200 <= i)%Z -> pendulum.animate i = None) /\
  (forall i : Z, (-200 <= i < 0)%Z ->
     pendulum.item pendulum.t i = pendulum.item pendulum.t (i + 200)) /\
  pendulum.item pendulum.t 0 = Some 0 /\
  pendulum.item pendulum.t 199 = Some 20.
Proof.
  pose proof pendulum_item_nonneg as Hitem.
  pose proof pendulum_item_wrap as Hwrap.
  split; [| split; [| split; [assumption |]]].
  - intros i Hi.
    assert (Hsome : exists ti, pendulum.item pendulum.t i = Some ti).
    { destruct (Z.neg_nonneg_cases i) as [Hneg | Hpos].
      - rewrite Hwrap by lia. eexists. apply Hitem. lia.
      - eexists. apply Hitem. lia. }
    destruct Hsome as (ti & Hti).
    unfold pendulum.animate. rewrite Hti. eexists. split; reflexivity.
  - intros i Hi. unfold pendulum.animate, pendulum.item.
    rewrite pendulum_t_length.
    destruct (Z.leb_spec 0 i), (Z.ltb_spec i (Z.of_nat 200)),
      (Z.leb_spec (- Z.of_nat 200) i), (Z.ltb_spec i 0);
      cbn [andb]; try reflexivity; lia.
  - rewrite !Hitem by lia. unfold pendulum.t.
    change (Z.to_nat 0) with 0%nat. change (Z.to_nat 199) with 199%nat.
    rewrite !linspace_nth by lia. cbn [Nat.sub].
    replace (INR 199) with 199 by (cbn [INR]; lra).
    split; f_equal; cbn [INR]; lra.
Qed.

(** X14. Each frame draws three panels; in the first, the in-phase mode,
    the two bobs are at the same height, and in the second, the
    out-of-phase mode, they are mirror images about the centre line. *)
Theorem pendulum_panels_show_the_two_modes :
  forall (i : Z) (panels : list pendulum.Panel),
    pendulum.animate i = Some panels ->
    exists ti pa pb pc,
      pendulum.item pendulum.t i = Some ti /\
      panels = [pa; pb; pc] /\
      snd (pendulum.bob2 pa) = snd (pendulum.bob1 pa) /\
      pendulum.bob2 pb =
        (- fst (pendulum.bob1 pb), snd (pendulum.bob1 pb)).
Proof.
  intros i panels Hsome.
  destruct (pendulum_animate_some i panels Hsome) as (ti & Hti & ->).
  exists ti. unfold pendulum.all_coords. cbn [map fst snd].
  do 3 eexists. split; [assumption |]. split; [reflexivity |].
  unfold pendulum.place. cbn [pendulum.bob1 pendulum.bob2 fst snd].
  split; [reflexivity |].
  replace (-0.2 * cos (pendulum.w2 * ti))
    with (- (0.2 * cos (pendulum.w2 * ti))) by lra.
  rewrite sin_neg, cos_neg. f_equal. lra.
Qed.

Lemma small_angle (a : R) :
  -0.2 <= a <= 0.2 -> -0.2 <= sin a <= 0.2 /\ 0 < cos a <= 1.
Proof.
  intros Ha. pose proof (sin_sqr_le a) as Hs. pose proof PI_gt_3.
  split; [| split; [apply cos_gt_0; lra | apply COS_bound]].
  split; nra.
Qed.

Lemma pendulum_angles_small (ti : R) :
  Forall (fun ab => -0.2 <= fst ab <= 0.2 /\ -0.2 <= snd ab <= 0.2)
         (pendulum.all_coords ti).
Proof.
  unfold pendulum.all_coords.
  pose proof (COS_bound (pendulum.w1 * ti)).
  pose proof (COS_bound (pendulum.w2 * ti)).
  repeat (apply Forall_cons; [cbn [fst snd]; lra |]). apply Forall_nil.
Qed.

(** X15. The bobs keep to their sides: on every frame, in every panel,
    the left bob is between -0.6 and -0.2 and the right bob between 0.2
    and 0.6, so they never meet, and both hang below the bar, no lower
    than -1. *)
Theorem pendulum_bobs_keep_to_their_sides :
  forall (i : Z) (panels : list pendulum.Panel),
    pendulum.animate i = Some panels ->
    Forall (fun p =>
              -0.6 <= fst (pendulum.bob1 p) <= -0.2 /\
              0.2 <= fst (pendulum.bob2 p) <= 0.6 /\
              -1 <= snd (pendulum.bob1 p) < 0 /\
              -1 <= snd (pendulum.bob2 p) < 0)
           panels.
Proof.
  intros i panels Hsome.
  destruct (pendulum_animate_some i panels Hsome) as (ti & _ & ->).
  apply Forall_map. eapply Forall_impl; [| apply pendulum_angles_small].
  intros [a b]. cbn [fst snd]. intros [Ha Hb].
  destruct (small_angle a Ha) as [Hsa Hca].
  destruct (small_angle b Hb) as [Hsb Hcb].
  unfold pendulum.place. cbn [pendulum.bob1 pendulum.bob2 fst snd].
  repeat split; lra.
Qed.

(** * Casimir effect *)

(** X16. The standing waves start on the left plate: on every frame but
    225, where the gap [d + 2] is zero, each of the five waves is drawn
    over the 50 points from -2 to the moving plate, vanishes at the first
    of them, and stays within 0.5 of the axis. *)
Theorem casimir_waves_start_on_the_left_plate :
  forall frame : Z,
    frame <> 225%Z ->
    length (casimir.lines_in (casimir.animate frame)) = 5%nat /\
    Forall (fun line =>
              fst line = np.linspace (-2) (casimir.d frame) 50 /\
              length (snd line) = 50%nat /\
              hd 1 (snd line) = 0 /\
              Forall (fun y => -0.5 <= y <= 0.5) (snd line))
           (casimir.lines_in (casimir.animate frame)).
Proof.
  intros frame Hframe.
  assert (Hgap : casimir.d frame + 2 <> 0).
  { unfold casimir.d. intros Heq.
    assert (Hf : IZR frame = 225) by lra.
    apply eq_IZR in Hf. contradiction. }
  unfold casimir.animate. cbn [casimir.lines_in].
  split; [now rewrite length_map, length_seq |].
  apply Forall_map, Forall_forall. intros i _. cbn [fst snd].
  split; [reflexivity |].
  unfold casimir.wave.
  set (x_in := np.linspace (-2) (casimir.d frame) 50).
  assert (Hne : x_in <> []) by apply linspace_nonempty.
  split; [now rewrite length_map; apply linspace_length |].
  rewrite (hd_map_nonempty _ x_in 0 1 Hne).
  unfold x_in. rewrite linspace_first.
  split.
  - replace (INR (i + 1) * PI * (-2 + 2) / (casimir.d frame + 2)) with 0
      by (field; assumption).
    rewrite sin_0. ring.
  - apply Forall_map, Forall_forall. intros x _.
    pose proof (SIN_bound (INR (i + 1) * PI * (x + 2) / (casimir.d frame + 2))).
    pose proof (COS_bound (IZR frame * 0.2)).
    split; nra.
Qed.

(** X17. The right plate closes in and the arrows shrink.  Over the 80
    frames of the run the plate stays between 0.9 and 2.5, right of the
    left plate; the arrow heads sit on the outer faces of the plates and
    the tails outside them; and from one frame to any later one the plate
    is further left and both arrows are shorter. *)
Theorem casimir_plate_closes_in :
  (forall frame : Z, (0 <= frame <= 79)%Z ->
     let s := casimir.animate frame in
     0.9 <= casimir.plate_R s <= 2.5 /\
     snd (casimir.arr_L s) = (-2.1, 0) /\
     snd (casimir.arr_R s) = (casimir.plate_R s + 0.2, 0) /\
     fst (fst (casimir.arr_L s)) < fst (snd (casimir.arr_L s)) /\
     fst (snd (casimir.arr_R s)) < fst (fst (casimir.arr_R s))) /\
  (forall f1 f2 : Z, (0 <= f1 < f2)%Z -> (f2 <= 79)%Z ->
     let s1 := casimir.animate f1 in
     let s2 := casimir.animate f2 in
     casimir.plate_R s2 < casimir.plate_R s1 /\
     fst (snd (casimir.arr_L s2)) - fst (fst (casimir.arr_L s2))
       < fst (snd (casimir.arr_L s1)) - fst (fst (casimir.arr_L s1)) /\
     fst (fst (casimir.arr_R s2)) - fst (snd (casimir.arr_R s2))
       < fst (fst (casimir.arr_R s1)) - fst (snd (casimir.arr_R s1))).
Proof.
  split.
  - intros frame [Hlo Hhi] s. apply IZR_le in Hlo, Hhi.
    subst s. unfold casimir.animate, casimir.d.
    cbn [casimir.plate_R casimir.arr_L casimir.arr_R fst snd].
    split; [lra |]. split; [reflexivity |]. split; [reflexivity |].
    split; lra.
  - intros f1 f2 [_ Hlt] _ s1 s2. apply IZR_lt in Hlt.
    subst s1 s2. unfold casimir.animate, casimir.d.
    cbn [casimir.plate_R casimir.arr_L casimir.arr_R fst snd].
    split; [lra |]. split; lra.
Qed.

(** * Hawking radiation *)

Lemma hawking_cycle (frame : Z) : (0 <= frame mod 40 <= 39)%Z.
Proof. pose proof (Z.mod_pos_bound frame 40). lia. Qed.

(** X18. The pair straddles the horizon of radius 1: on every frame, from
    any state, the escaping marker is a single point with abscissa at
    least 1.1 and the infalling one a single point on the axis strictly
    between the centre and 0.9; the frames repeat with period 40. *)
Theorem hawking_pair_straddles_the_horizon :
  forall (frame : Z) (s : hawking.Scene),
    (exists x1 y1 x2,
        hawking.p1 (hawking.animate frame s) = ([x1], [y1]) /\
        hawking.p2 (hawking.animate frame s) = ([x2], [0]) /\
        1.1 <= x1 <= 2.6 /\ 0 <= y1 <= 0.5 /\ 0 < x2 <= 0.9) /\
    hawking.animate (frame + 40) s = hawking.animate frame s.
Proof.
  intros frame s. split.
  - unfold hawking.animate. pose proof (hawking_cycle frame) as [Hlo Hhi].
    destruct (Z.ltb_spec (frame mod 40) 10) as [Hspawn | Hmove].
    + exists 1.1, 0, 0.9. cbn [hawking.p1 hawking.p2].
      repeat split; lra.
    + assert (Ht : 0 <= IZR (frame mod 40 - 10) <= 29)
        by (split; apply IZR_le; lia).
      do 3 eexists. cbn [hawking.p1 hawking.p2].
      split; [reflexivity |]. split; [reflexivity |].
      repeat split; lra.
  - unfold hawking.animate.
    replace ((frame + 40) mod 40)%Z with (frame mod 40)%Z; [reflexivity |].
    rewrite <- (Z.mul_1_l 40) at 2. now rewrite Z.mod_add.
Qed.

(** X19. Every alpha handed to the markers is a valid one: on every frame
    the infalling marker gets an alpha in [0, 1], and the alpha of the
    escaping marker, set only while the pair is spawning, stays at most
    0.9 once set: that marker is never drawn opaque. *)
Theorem hawking_alphas_are_valid :
  (forall (frame : Z) (s : hawking.Scene),
     exists a2, hawking.p2_alpha (hawking.animate frame s) = Some a2 /\
                0 <= a2 <= 1) /\
  (forall (frame : Z) (s : hawking.Scene),
     (forall a, hawking.p1_alpha s = Some a -> 0 <= a <= 0.9) ->
     forall a, hawking.p1_alpha (hawking.animate frame s) = Some a ->
               0 <= a <= 0.9) /\
  (forall (frame : Z) (s : hawking.Scene),
     (frame mod 40 < 10)%Z ->
     hawking.p1_alpha (hawking.animate frame s)
       = Some (IZR (frame mod 40) / 10)).
Proof.
  split; [| split].
  - intros frame s. unfold hawking.animate.
    pose proof (hawking_cycle frame) as [Hlo Hhi].
    destruct (Z.ltb_spec (frame mod 40) 10) as [Hspawn | Hmove];
      eexists; cbn [hawking.p2_alpha]; (split; [reflexivity |]).
    + assert (0 <= IZR (frame mod 40) <= 9) by (split; apply IZR_le; lia).
      lra.
    + assert (0 <= IZR (frame mod 40 - 10) <= 29)
        by (split; apply IZR_le; lia).
      lra.
  - intros frame s Hold a. unfold hawking.animate.
    pose proof (hawking_cycle frame) as [Hlo Hhi].
    destruct (Z.ltb_spec (frame mod 40) 10) as [Hspawn | Hmove];
      cbn [hawking.p1_alpha].
    + intros [= <-].
      assert (0 <= IZR (frame mod 40) <= 9) by (split; apply IZR_le; lia).
      lra.
    + apply Hold.
  - intros frame s Hspawn. unfold hawking.animate.
    destruct (Z.ltb_spec (frame mod 40) 10); [reflexivity | lia].
Qed.

(** * Vacuum decay *)

Lemma vacuum_frames_state (n : nat) (s0 : vacuum.Scene) :
  vacuum.ball_color (vacuum.frames n s0) =
    (if (Z.of_nat n <=? 30)%Z then vacuum.ball_color s0
     else if (Z.of_nat n <=? 50)%Z then vacuum.yellow else vacuum.magenta) /\
  vacuum.bubble (vacuum.frames n s0) =
    (if (Z.of_nat n <=? 51)%Z then vacuum.bubble s0
     else IZR (Z.of_nat n - 51) * 0.3).
Proof.
  induction n as [| k [IHc IHb]]; [split; reflexivity |].
  cbn [vacuum.frames]. unfold vacuum.animate.
  destruct (Z.ltb_spec (Z.of_nat k) 30), (Z.ltb_spec (Z.of_nat k) 50),
    (Z.ltb_spec 50 (Z.of_nat k)),
    (Z.leb_spec (Z.of_nat (S k)) 30), (Z.leb_spec (Z.of_nat (S k)) 50),
    (Z.leb_spec (Z.of_nat (S k)) 51); try lia;
    cbn [vacuum.ball_color vacuum.bubble vacuum.ball];
    rewrite ?IHc, ?IHb;
    destruct (Z.leb_spec (Z.of_nat k) 30), (Z.leb_spec (Z.of_nat k) 50),
      (Z.leb_spec (Z.of_nat k) 51); try lia;
    (split; [reflexivity |]); try reflexivity;
    f_equal; f_equal; lia.
Qed.

(** X20. A run of the vacuum animation goes through three phases: after
    the frames 0 .. f the ball rests at the origin while f < 30, is yellow
    at height 1.5 and abscissa [2.5 (f - 30) / 20] while 30 <= f < 50, and
    is magenta at [(2.7, -1)] from frame 50 on; the bubble keeps the
    radius it had through frame 50 and then has radius [0.3 (f - 50)].
    Nothing resets the colour or the bubble: a run that starts on a used
    scene keeps them until it sets them again. *)
Theorem vacuum_run_goes_through_three_phases :
  forall (n : nat) (s0 : vacuum.Scene),
    vacuum.ball (vacuum.frames (S n) s0) =
      (if (Z.of_nat n <? 30)%Z then ([0], [0])
       else if (Z.of_nat n <? 50)%Z
            then ([2.5 * IZR (Z.of_nat n - 30) / 20], [1.5])
            else ([2.7], [-1])) /\
    vacuum.ball_color (vacuum.frames (S n) s0) =
      (if (Z.of_nat n <? 30)%Z then vacuum.ball_color s0
       else if (Z.of_nat n <? 50)%Z then vacuum.yellow else vacuum.magenta) /\
    vacuum.bubble (vacuum.frames (S n) s0) =
      (if (Z.of_nat n <=? 50)%Z then vacuum.bubble s0
       else IZR (Z.of_nat n - 50) * 0.3) /\
    vacuum.bubble (vacuum.frames (S n) vacuum.fresh) =
      IZR (Z.max 0 (Z.of_nat n - 50)) * 0.3.
Proof.
  intros n s0.
  assert (Hstate := vacuum_frames_state (S n)).
  split; [| split; [| split]].
  - cbn [vacuum.frames]. unfold vacuum.animate.
    destruct (Z.ltb_spec (Z.of_nat n) 30), (Z.ltb_spec (Z.of_nat n) 50),
      (Z.ltb_spec 50 (Z.of_nat n)); try lia; reflexivity.
  - rewrite (proj1 (Hstate s0)).
    destruct (Z.leb_spec (Z.of_nat (S n)) 30), (Z.leb_spec (Z.of_nat (S n)) 50),
      (Z.ltb_spec (Z.of_nat n) 30), (Z.ltb_spec (Z.of_nat n) 50);
      try lia; reflexivity.
  - rewrite (proj2 (Hstate s0)).
    destruct (Z.leb_spec (Z.of_nat (S n)) 51), (Z.leb_spec (Z.of_nat n) 50);
      try lia; [reflexivity |]. f_equal. f_equal. lia.
  - rewrite (proj2 (Hstate vacuum.fresh)). cbn [vacuum.fresh vacuum.bubble].
    destruct (Z.leb_spec (Z.of_nat (S n)) 51).
    + replace (Z.max 0 (Z.of_nat n - 50)) with 0%Z by lia. lra.
    + f_equal. f_equal. lia.
Qed.

(** X21. The potential curve is nowhere negative and touches zero only at
    the origin, where the ball first rests; at 2.7 it is above 3, so the
    final position of the ball, [(2.7, -1)], lies below the curve. *)
Theorem vacuum_potential_is_lowest_at_the_origin :
  (forall x : R, 0 <= vacuum.y x) /\
  (forall x : R, vacuum.y x = 0 <-> x = 0) /\
  3 < vacuum.y 2.7.
Proof.
  assert (Hq : forall x : R, 0 < 0.5 * x ^ 2 - 2.66 * x + 4).
  { intros x. pose proof (pow2_ge_0 (x - 2.66)). nra. }
  assert (Hy : forall x : R,
             vacuum.y x = x ^ 2 * (0.5 * x ^ 2 - 2.66 * x + 4)).
  { intros x. unfold vacuum.y. ring. }
  split; [| split].
  - intros x. rewrite Hy. pose proof (pow2_ge_0 x). specialize (Hq x). nra.
  - intros x. split.
    + rewrite Hy. intros Hzero. specialize (Hq x).
      apply Rmult_integral in Hzero. destruct Hzero as [Hx | Hx]; [| lra].
      pose proof (pow2_ge_0 x). nra.
    + intros ->. unfold vacuum.y. ring.
  - unfold vacuum.y. lra.
Qed.

(** * Navigation *)

Lemma route_inversion (selection : String.string) (p : navigation.page) :
  navigation.route selection = Some p ->
  match p with
  | navigation.show_home => selection = "Home"
  | navigation.show_lensing => selection = "Gravitational Lensing"
  | navigation.show_interferometer => selection = "Michelson Interferometer"
  | navigation.show_pendulum => selection = "Coupled Pendulums"
  | navigation.show_doubleslit => selection = "Double Slit (Electrons)"
  | navigation.show_casimir => selection = "Casimir Effect"
  | navigation.show_hawking => selection = "Hawking Radiation"
  | navigation.show_vacuum => selection = "Vacuum Decay"
  end%string.
Proof.
  unfold navigation.route.
  repeat match goal with
         | |- context [String.eqb ?a ?b] =>
             destruct (String.eqb_spec a b) as [-> | _];
             [intros [= <-]; reflexivity |]
         end.
  discriminate.
Qed.

(** X22. The sidebar and the routing agree: each of the eight options
    shows a page, different options show different pages, every page is
    shown by some option, and a selection that is not an option shows
    nothing. *)
Theorem navigation_routes_every_option :
  (forall selection, In selection navigation.options ->
     exists p, navigation.route selection = Some p) /\
  (forall selection p, navigation.route selection = Some p ->
     In selection navigation.options) /\
  (forall s1 s2 p, navigation.route s1 = Some p ->
     navigation.route s2 = Some p -> s1 = s2) /\
  (forall p, exists selection,
     In selection navigation.options /\
     navigation.route selection = Some p) /\
  NoDup navigation.options.
Proof.
  split; [| split; [| split; [| split]]].
  - intros selection Hin. cbn [navigation.options In] in Hin.
    repeat (destruct Hin as [<- | Hin]; [eexists; reflexivity |]).
    contradiction.
  - intros selection p Hroute. apply route_inversion in Hroute.
    destruct p; subst selection; cbn [navigation.options In]; tauto.
  - intros s1 s2 p H1 H2.
    apply route_inversion in H1, H2. destruct p; congruence.
  - intros p.
    destruct p;
      [ exists "Home"%string | exists "Gravitational Lensing"%string
      | exists "Michelson Interferometer"%string
      | exists "Coupled Pendulums"%string
      | exists "Double Slit (Electrons)"%string
      | exists "Casimir Effect"%string | exists "Hawking Radiation"%string
      | exists "Vacuum Decay"%string ];
      (split; [cbn [navigation.options In]; tauto | reflexivity]).
  - unfold navigation.options.
    repeat (constructor; [cbn [In]; intros Hin;
                          repeat (destruct Hin as [Hin | Hin];
                                  [discriminate Hin |]);
                          exact Hin |]).
    constructor.
Qed.

(** * Runs of the lensing and Hawking animations *)

Lemma lensing_early_frame (frame : Z) (s : lensing.Scene) :
  (0 <= frame <= 50)%Z ->
  exists s',
    lensing.animate frame s = Done s' /\
    lensing.beam_top s' =
      lensing.get_path
        (np.linspace 0 (IZR frame / 50) (Z.to_nat (frame + 1))) 1 /\
    lensing.beam_bottom s' =
      lensing.get_path
        (np.linspace 0 (IZR frame / 50) (Z.to_nat (frame + 1))) (-1) /\
    lensing.img_top_alpha s' = lensing.img_top_alpha s /\
    lensing.img_bot_alpha s' = lensing.img_bot_alpha s.
Proof.
  intros Hframe. unfold lensing.animate.
  destruct (Z.leb_spec frame 50) as [_ | Hgt]; [| lia].
  destruct (Z.ltb_spec (frame + 1) 0) as [Hneg | _]; [lia |].
  eexists. split; [reflexivity |]. repeat split; reflexivity.
Qed.

Lemma lensing_late_frame (frame : Z) (s : lensing.Scene) :
  (50 < frame)%Z ->
  exists s',
    lensing.animate frame s = Done s' /\
    lensing.beam_top s' = lensing.beam_top s /\
    lensing.beam_bottom s' = lensing.beam_bottom s /\
    lensing.img_top_alpha s' =
      (if (frame <? 54)%Z then lensing.img_top_alpha s else 1) /\
    lensing.img_bot_alpha s' =
      (if (frame <? 54)%Z then lensing.img_bot_alpha s else 1).
Proof.
  intros Hframe.
  set (p := Rmin 1 (IZR (frame - 50) / 30)).
  assert (Hq : 1 <= IZR (frame - 50)) by (apply IZR_le; lia).
  assert (Hshow : Rltb 0.1 p = negb (frame <? 54)%Z).
  { destruct (Z.ltb_spec frame 54) as [Hlt | Hge]; cbn [negb].
    - assert (IZR (frame - 50) <= 3) by (apply IZR_le; lia).
      apply Rltb_false. unfold p, Rmin.
      destruct (Rle_dec 1 (IZR (frame - 50) / 30)); lra.
    - assert (4 <= IZR (frame - 50)) by (apply IZR_le; lia).
      apply Rltb_true. unfold p, Rmin.
      destruct (Rle_dec 1 (IZR (frame - 50) / 30)); lra. }
  unfold lensing.animate.
  destruct (Z.leb_spec frame 50) as [Hle | _]; [lia |].
  fold p. rewrite Hshow.
  destruct (frame <? 54)%Z; cbn [negb]; eexists;
    (split; [reflexivity |]); repeat split; reflexivity.
Qed.

(** X23. Along a run of the lensing animation no frame fails; after the
    frames 0 .. n the beams are those of frame [min n 50], so the complete
    beams stay drawn once the light has arrived, and the apparent images
    are transparent through frame 53 and opaque from frame 54 on. *)
Theorem lensing_run_keeps_the_beams_and_shows_the_images :
  forall n : nat,
    exists s,
      lensing.frames (S n) lensing.fresh = Done s /\
      lensing.beam_top s =
        lensing.get_path
          (np.linspace 0 (IZR (Z.min (Z.of_nat n) 50) / 50)
                       (Z.to_nat (Z.min (Z.of_nat n) 50 + 1))) 1 /\
      lensing.beam_bottom s =
        lensing.get_path
          (np.linspace 0 (IZR (Z.min (Z.of_nat n) 50) / 50)
                       (Z.to_nat (Z.min (Z.of_nat n) 50 + 1))) (-1) /\
      lensing.img_top_alpha s = (if (Z.of_nat n <? 54)%Z then 0 else 1) /\
      lensing.img_bot_alpha s = (if (Z.of_nat n <? 54)%Z then 0 else 1).
Proof.
  induction n as [| n (s & Hrun & Htop & Hbot & Hat & Hab)].
  - destruct (lensing_early_frame 0 lensing.fresh ltac:(lia))
      as (s' & Hdone & Ht & Hb & Ha1 & Ha2).
    exists s'. cbn [lensing.frames bind]. split; [exact Hdone |].
    change (Z.min (Z.of_nat 0) 50) with 0%Z.
    split; [exact Ht |]. split; [exact Hb |].
    split; [exact Ha1 | exact Ha2].
  - change (lensing.frames (S (S n)) lensing.fresh)
      with (s' <- lensing.frames (S n) lensing.fresh ;;
            lensing.animate (Z.of_nat (S n)) s').
    rewrite Hrun. cbn [bind].
    destruct (Z.le_gt_cases (Z.of_nat (S n)) 50) as [Hearly | Hlate].
    + destruct (lensing_early_frame (Z.of_nat (S n)) s ltac:(lia))
        as (s' & Hdone & Ht & Hb & Ha1 & Ha2).
      exists s'. split; [exact Hdone |].
      replace (Z.min (Z.of_nat (S n)) 50) with (Z.of_nat (S n)) by lia.
      split; [exact Ht |]. split; [exact Hb |].
      rewrite Ha1, Ha2, Hat, Hab.
      destruct (Z.ltb_spec (Z.of_nat n) 54), (Z.ltb_spec (Z.of_nat (S n)) 54);
        try lia; split; reflexivity.
    + destruct (lensing_late_frame (Z.of_nat (S n)) s ltac:(lia))
        as (s' & Hdone & Ht & Hb & Ha1 & Ha2).
      exists s'. split; [exact Hdone |].
      replace (Z.min (Z.of_nat (S n)) 50) with (Z.min (Z.of_nat n) 50) by lia.
      rewrite Ht, Hb. split; [exact Htop |]. split; [exact Hbot |].
      rewrite Ha1, Ha2, Hat, Hab.
      destruct (Z.ltb_spec (Z.of_nat n) 54), (Z.ltb_spec (Z.of_nat (S n)) 54);
        try lia; split; reflexivity.
Qed.

(** X24. Along a run of the Hawking animation the escaping marker fades in
    while the pair is spawning and then keeps the alpha 0.9 of the last
    spawning frame while it flies away: after the frames 0 .. n its alpha
    is [c / 10] if [c = n mod 40] is below 10, and 0.9 otherwise. *)
Theorem hawking_escaping_marker_keeps_its_last_alpha :
  forall n : nat,
    hawking.p1_alpha (hawking.frames (S n) hawking.fresh) =
    Some (if (Z.of_nat n mod 40 <? 10)%Z
          then IZR (Z.of_nat n mod 40) / 10 else 0.9).
Proof.
  induction n as [| n IH].
  - reflexivity.
  - change (hawking.frames (S (S n)) hawking.fresh)
      with (hawking.animate (Z.of_nat (S n))
              (hawking.frames (S n) hawking.fresh)).
    unfold hawking.animate at 1.
    destruct (Z.ltb_spec (Z.of_nat (S n) mod 40) 10) as [Hspawn | Hmove];
      cbn [hawking.p1_alpha]; [reflexivity |].
    rewrite IH.
    destruct (Z.ltb_spec (Z.of_nat n mod 40) 10) as [Hprev | _];
      [| reflexivity].
    assert (Hnine : (Z.of_nat n mod 40 = 9)%Z).
    { pose proof (Z.mod_pos_bound (Z.of_nat n) 40).
      pose proof (Z.mod_pos_bound (Z.of_nat (S n)) 40).
      pose proof (Z.div_mod (Z.of_nat n) 40).
      pose proof (Z.div_mod (Z.of_nat (S n)) 40).
      lia. }
    rewrite Hnine. f_equal; lra.
Qed.

(** * The properties on concrete inputs *)

Lemma six_frames_add_two_positions :
  exists (s' : Scene (list nat)) (added : list R),
    frames 1 6 (fresh [1%nat]) = Done s' /\
    landed_y s' = landed_y (fresh [1%nat]) ++ added /\
    length added = 2%nat.
Proof.
  destruct (half_tape_frames 6 (fresh [1%nat]) (fresh_inv _) eq_refl)
    as (s' & Hdone & _).
  destruct (landed_positions_only_grow 1%nat 6%nat (fresh [1%nat]) s' Hdone)
    as (added & Hl & Hlen).
  exists s', added. split; [exact Hdone |]. split; [exact Hl | exact Hlen].
Defined.

Lemma first_particle_is_counted_once :
  exists (s : Scene (list nat)) (hist : list nat),
    run 1 1 [1%nat] = Done s /\
    np.histogram (landed_y s) (bins s) = Done hist /\
    list_sum hist = 1%nat.
Proof.
  destruct (half_tape_run 1) as (s & Hrun).
  destruct (run_has_target _ _ _ _ Hrun) as (Hlen & _ & _).
  destruct (histogram_counts_every_particle s (run_reachable _ _ _ _ Hrun))
    as (hist & Hhist & Hsum).
  exists s, hist. split; [exact Hrun |]. split; [exact Hhist |].
  rewrite Hsum. exact Hlen.
Defined.

Lemma dot_on_second_frame_is_in_view :
  exists (s : Scene (list nat)) (p : R * R),
    run 1 2 [1%nat] = Done s /\ dot s = Some p /\
    -1.5 <= fst p < 2.5 /\ -1 < snd p < 1.
Proof.
  destruct (half_tape_run 2) as (s & Hrun).
  destruct (run_has_target _ _ _ _ Hrun) as (_ & _ & Hdot).
  exists s. eexists. split; [exact Hrun |]. split; [exact Hdot |].
  exact (proj1 (dot_stays_before_the_screen (G := list nat)) s
           (run_reachable _ _ _ _ Hrun) _ Hdot).
Defined.

Lemma first_frame_does_not_raise :
  reachable (fresh [1%nat]) /\
  bins (fresh [1%nat]) = edges /\
  animate 1 0 (fresh [1%nat]) <> Raise ValueError.
Proof.
  assert (Hreach : reachable (fresh [1%nat])).
  { apply (reach_setup [1%nat]). reflexivity. }
  destruct (proj1 (proj2 (no_frame_raises (G := list nat)))
              (fresh [1%nat]) Hreach) as (Hbins & _ & Hsafe).
  split; [exact Hreach |]. split; [exact Hbins |]. apply Hsafe.
Defined.

Lemma beam_reaches_earth_at_frame_50 :
  exists s',
    lensing.animate 50 lensing.fresh = Done s' /\
    length (fst (lensing.beam_top s')) = 51%nat /\
    hd 0 (fst (lensing.beam_top s')) = 8 /\
    last (fst (lensing.beam_top s')) 0 = -8.
Proof.
  destruct (lensing_beam_travels_from_star_to_earth 50 lensing.fresh
              ltac:(lia))
    as (s' & Hdone & Hlen & _ & Hstar & _ & _ & _ & _ & _ & Hearth).
  exists s'. split; [exact Hdone |]. split; [exact Hlen |].
  split; [exact Hstar | exact (Hearth eq_refl)].
Defined.

Lemma beams_at_frame_25_pass_around :
  exists s',
    lensing.animate 25 lensing.fresh = Done s' /\
    Forall (fun y => 0 <= y <= 2.5) (snd (lensing.beam_top s')) /\
    Forall (fun y => -2.5 <= y <= 0) (snd (lensing.beam_bottom s')).
Proof.
  assert (Hframe : (0 <= 25 <= 50)%Z) by lia.
  destruct (lensing_early_frame 25 lensing.fresh Hframe)
    as (s' & Hdone & _).
  exists s'. split; [exact Hdone |].
  exact (proj2 (lensing_beams_pass_around_the_lens 25 lensing.fresh s'
                  Hframe Hdone)).
Defined.

Lemma images_shown_at_frame_60 :
  exists s',
    lensing.animate 60 lensing.fresh = Done s' /\
    lensing.img_top_alpha s' = 1 /\ lensing.img_bot_alpha s' = 1.
Proof.
  destruct (lensing_images_appear_at_frame_54 60 lensing.fresh ltac:(lia))
    as (s' & p & Hdone & _ & _ & _ & _ & _ & _ & _ & _ & _ & _ & _ & _ & _
        & Hshown & _).
  exists s'. split; [exact Hdone |].
  destruct (Hshown ltac:(lia)) as (_ & _ & Htop & Hbot & _).
  split; [exact Htop | exact Hbot].
Defined.

Lemma last_frame_counts_from_the_end :
  (exists panels, pendulum.animate (-1) = Some panels /\
                  length panels = 3%nat) /\
  pendulum.animate 200 = None /\
  pendulum.item pendulum.t (-1) = pendulum.item pendulum.t (-1 + 200).
Proof.
  destruct pendulum_frames_index_the_time_samples
    as (Hsome & Hnone & Hwrap & _).
  split; [apply Hsome; lia |].
  split; [apply Hnone; lia | apply Hwrap; lia].
Defined.

Lemma modes_on_first_frame :
  exists panels pa pb pc,
    pendulum.animate 0 = Some panels /\ panels = [pa; pb; pc] /\
    snd (pendulum.bob2 pa) = snd (pendulum.bob1 pa) /\
    pendulum.bob2 pb = (- fst (pendulum.bob1 pb), snd (pendulum.bob1 pb)).
Proof.
  destruct pendulum_first_frame as (panels & Hsome).
  destruct (pendulum_panels_show_the_two_modes 0 panels Hsome)
    as (ti & pa & pb & pc & _ & Hshape & Hin & Hout).
  exists panels, pa, pb, pc.
  split; [exact Hsome |]. split; [exact Hshape |].
  split; [exact Hin | exact Hout].
Defined.

Lemma bobs_apart_on_first_frame :
  exists panels,
    pendulum.animate 0 = Some panels /\
    Forall (fun p => fst (pendulum.bob1 p) <= -0.2 /\
                     0.2 <= fst (pendulum.bob2 p)) panels.
Proof.
  destruct pendulum_first_frame as (panels & Hsome).
  exists panels. split; [exact Hsome |].
  eapply Forall_impl;
    [| exact (pendulum_bobs_keep_to_their_sides 0 panels Hsome)].
  intros p (Hl & Hr & _). split; [apply Hl | apply Hr].
Defined.

Lemma five_waves_on_first_frame :
  length (casimir.lines_in (casimir.animate 0)) = 5%nat /\
  Forall (fun line => length (snd line) = 50%nat /\ hd 1 (snd line) = 0)
         (casimir.lines_in (casimir.animate 0)).
Proof.
  destruct (casimir_waves_start_on_the_left_plate 0 ltac:(discriminate))
    as (Hlen & Hall).
  split; [exact Hlen |].
  eapply Forall_impl; [| exact Hall].
  intros line (_ & Hsize & Hfirst & _). split; assumption.
Defined.

Lemma plate_closer_at_the_last_frame :
  casimir.plate_R (casimir.animate 79) < casimir.plate_R (casimir.animate 0) /\
  0.9 <= casimir.plate_R (casimir.animate 79) <= 2.5.
Proof.
  destruct casimir_plate_closes_in as (Hrange & Hmono).
  split.
  - exact (proj1 (Hmono 0%Z 79%Z ltac:(lia) ltac:(lia))).
  - exact (proj1 (Hrange 79%Z ltac:(lia))).
Defined.

Lemma escaping_alpha_at_frame_9 :
  hawking.p1_alpha (hawking.animate 9 hawking.fresh) = Some (IZR (9 mod 40) / 10) /\
  0 <= IZR (9 mod 40) / 10 <= 0.9.
Proof.
  destruct hawking_alphas_are_valid as (_ & Hkeep & Hspawn).
  assert (Hset : hawking.p1_alpha (hawking.animate 9 hawking.fresh)
                 = Some (IZR (9 mod 40) / 10)).
  { apply Hspawn. reflexivity. }
  split; [exact Hset |].
  apply (Hkeep 9%Z hawking.fresh); [| exact Hset].
  intros a Ha. discriminate Ha.
Defined.

Lemma potential_vanishes_at_the_origin : vacuum.y 0 = 0.
Proof.
  apply (proj1 (proj2 vacuum_potential_is_lowest_at_the_origin) 0).
  reflexivity.
Defined.

Lemma double_slit_option_is_routed :
  In "Double Slit (Electrons)"%string navigation.options /\
  exists p, navigation.route "Double Slit (Electrons)"%string = Some p.
Proof.
  assert (Hin : In "Double Slit (Electrons)"%string navigation.options).
  { cbn [navigation.options In]. tauto. }
  split; [exact Hin |].
  exact (proj1 navigation_routes_every_option _ Hin).
Defined.
